(** * Stand Strategist synchronisation service (grosbeak)

    A shallow embedding of [src/grosbeak/routers/stand_strategist.py]: the
    three route handlers [users], [get] and [update], together with the part
    of the document store they talk to (collections, equality filters,
    [ReplaceOne] with upsert, ordered [bulk_write]). *)

From stdpp Require Import base option list strings gmap fin_maps.

Local Open Scope string_scope.
Local Open Scope list_scope.

(** ** Values and documents *)

(** The values a document field can hold.  The handlers never look inside a
    data-point value; the only values they build or compare are strings (team
    number, match number, username).  [VOid] stands for the object identifiers
    the store generates for the field [_id].  Floats, arrays and nested
    documents are not represented, and [VNum] does not bound its integer,
    while the store encodes integers of at most 64 bits. *)
Inductive value : Type :=
  | VNull
  | VBool (b : bool)
  | VNum (n : Z)
  | VStr (s : string)
  | VOid (n : nat).

#[global] Instance value_eq_dec : EqDecision value.
Proof. solve_decision. Defined.

(** A Python [dict[str, Any]] and a stored document alike: a finite map from
    field names to values.  Equality of maps is equality of dicts. *)
Abbreviation doc := (gmap string value).

(** ** Failures *)

Inductive error : Type :=
  | KeyError (key : string)
  | ValidationError
  | BulkWriteError.

Inductive result (A : Type) : Type :=
  | Ok (a : A)
  | Err (e : error).
Arguments Ok {A} a.
Arguments Err {A} e.

(** Sequencing, written [x ← r; k]: the first failure is the outcome. *)
#[global] Instance result_bind : MBind result :=
  λ A B (k : A → result B) (r : result A),
    match r with
    | Ok a => k a
    | Err e => Err e
    end.

Definition is_ok {A : Type} (r : result A) : bool :=
  match r with Ok _ => true | Err _ => false end.

(** ** The document store *)

Module Mongo.

(** A collection in natural order. *)
Abbreviation collection := (list doc).

(** A query document [{"f1": v1, ...}]: every listed field must be present
    with exactly that value. *)
Abbreviation query := (list (string * value)).

Definition matches (q : query) (d : doc) : bool :=
  forallb (λ kv, bool_decide (d !! kv.1 = Some kv.2)) q.

(** [collection.find(q)], [collection.find()] being [find []]. *)
Definition find (q : query) (c : collection) : list doc :=
  List.filter (matches q) c.

(** The first document selected by [q], with its position. *)
Fixpoint first_match (q : query) (c : collection) : option (nat * doc) :=
  match c with
  | [] => None
  | d :: c' =>
      if matches q d then Some (0, d)
      else prod_map S id <$> first_match q c'
  end.

Record ReplaceOne : Type := mkReplaceOne {
  filter : query;
  replacement : doc;
  upsert : bool
}.

Definition oid_of (d : doc) : nat :=
  match d !! "_id" with
  | Some (VOid n) => S n
  | _ => 0
  end.

(** An object identifier that no document of [c] carries. *)
Definition fresh_oid (c : collection) : nat :=
  foldr (λ d n, Nat.max (oid_of d) n) 0 c.

Definition has_id (v : value) (d : doc) : bool :=
  bool_decide (d !! "_id" = Some v).

(** The document that takes the place of [old]: the replacement, under the
    identifier [old] already has. *)
Definition keep_id (old repl : doc) : doc :=
  match old !! "_id" with
  | Some v => <["_id" := v]> repl
  | None => repl
  end.

(** Replacing [old] as a whole: the document keeps its [_id], and a
    replacement that names another [_id] is refused. *)
Definition replace_doc (old repl : doc) : result doc :=
  match repl !! "_id" with
  | Some v => if has_id v old then Ok repl else Err BulkWriteError
  | None => Ok (keep_id old repl)
  end.

(** Inserting into [c]: an [_id] is generated unless the replacement brings
    one, which must not be in use. *)
Definition new_doc (c : collection) (repl : doc) : result doc :=
  match repl !! "_id" with
  | Some v => if existsb (has_id v) c then Err BulkWriteError else Ok repl
  | None => Ok (<["_id" := VOid (fresh_oid c)]> repl)
  end.

(** One [ReplaceOne]: the first selected document is replaced; when nothing
    is selected and [upsert] is set, the replacement is inserted. *)
Definition replace_one (op : ReplaceOne) (c : collection) : result collection :=
  match first_match (filter op) c with
  | Some (i, old) =>
      new ← replace_doc old (replacement op); Ok (<[i := new]> c)
  | None =>
      if upsert op then new ← new_doc c (replacement op); Ok (c ++ [new])
      else Ok c
  end.

(** [collection.bulk_write(ops)], ordered: the operations run in turn and
    the first failure stops the batch, what was written before it stays.
    The failures embedded are those of the store over [_id].  The driver
    also refuses a batch, writing nothing, when it cannot encode a
    replacement (a first key that starts with [$], an integer beyond 64
    bits); this is not embedded, so [Ok] here does not say that the driver
    accepts the batch, and a property of a call that returns takes the
    return as a hypothesis. *)
Fixpoint bulk_write (ops : list ReplaceOne) (c : collection)
    : collection * result unit :=
  match ops with
  | [] => (c, Ok ())
  | op :: ops' =>
      match replace_one op c with
      | Ok c' => bulk_write ops' c'
      | Err e => (c, Err e)
      end
  end.

(** A database holds the two collections of the service, [db["ss_team"]]
    and [db["ss_tim"]]. *)
Record database : Type := mkDatabase {
  ss_team : collection;
  ss_tim : collection
}.

Inductive collection_name : Type := SS_TEAM | SS_TIM.

Definition get_collection (db : database) (name : collection_name) : collection :=
  match name with SS_TEAM => ss_team db | SS_TIM => ss_tim db end.

Definition set_collection (db : database) (name : collection_name)
    (c : collection) : database :=
  match name with
  | SS_TEAM => {| ss_team := c; ss_tim := ss_tim db |}
  | SS_TIM => {| ss_team := ss_team db; ss_tim := c |}
  end.

Definition empty_db : database := {| ss_team := []; ss_tim := [] |}.

(** [client[event_key]]: every name denotes a database, empty until
    something is written to it. *)
Definition client : Type := string → database.

Definition empty_client : client := λ _, empty_db.

Definition set_db (cl : client) (event_key : string) (db : database) : client :=
  λ k, if bool_decide (k = event_key) then db else cl k.

(** [client[event_key][name].find(q)] *)
Definition client_find (cl : client) (event_key : string)
    (name : collection_name) (q : query) : list doc :=
  find q (get_collection (cl event_key) name).

(** [client[event_key][name].bulk_write(ops)] *)
Definition client_bulk_write (cl : client) (event_key : string)
    (name : collection_name) (ops : list ReplaceOne) : client * result unit :=
  let db := cl event_key in
  let '(c, r) := bulk_write ops (get_collection db name) in
  (set_db cl event_key (set_collection db name c), r).

End Mongo.

(** ** The route handlers *)

Module StandStrategist.
Import Mongo.

(** The data sent by the Stand Strategist app: [teamData] maps team numbers
    to data points, [timData] maps match numbers to team numbers to data
    points. *)
Record StandStrategistData : Type := mkStandStrategistData {
  teamData : gmap string doc;
  timData : gmap string (gmap string doc)
}.

(** [doc[key]] *)
Definition getitem (d : doc) (key : string) : result value :=
  match d !! key with
  | Some v => Ok v
  | None => Err (KeyError key)
  end.

(** [data.pop(key)], without a default. *)
Definition pop (key : string) (data : doc) : result doc :=
  match data !! key with
  | Some _ => Ok (delete key data)
  | None => Err (KeyError key)
  end.

(** [for key in keys: data.pop(key)] *)
Fixpoint pop_all (keys : list string) (data : doc) : result doc :=
  match keys with
  | [] => Ok data
  | key :: keys' => data' ← pop key data; pop_all keys' data'
  end.

(** The response models type usernames and the keys of [teamData] and
    [timData] as [str]; any other value is rejected.  The code validates once
    the loops are done; the embedding rejects the value at the record that
    holds it, so with several faulty records the error reported can be
    another one than the code's. *)
Definition as_str (v : value) : result string :=
  match v with
  | VStr s => Ok s
  | _ => Err ValidationError
  end.

(** *** [GET /stand-strategist/users] *)

Fixpoint users_loop (docs : list doc) (users : gset string)
    : result (gset string) :=
  match docs with
  | [] => Ok users
  | d :: docs' =>
      v ← getitem d "username";
      u ← as_str v;
      users_loop docs' ({[u]} ∪ users)
  end.

Definition users (cl : client) (event_key : string) : result (list string) :=
  users ← users_loop (client_find cl event_key SS_TEAM []) ∅;
  users ← users_loop (client_find cl event_key SS_TIM []) users;
  Ok (elements users).

(** *** [GET /stand-strategist] *)

Fixpoint get_team_loop (docs : list doc) (teamData : gmap string doc)
    : result (gmap string doc) :=
  match docs with
  | [] => Ok teamData
  | d :: docs' =>
      data ← pop_all ["_id"; "team_number"; "username"] d;
      v ← getitem d "team_number";
      team ← as_str v;
      get_team_loop docs' (<[team := data]> teamData)
  end.

Fixpoint get_tim_loop (docs : list doc) (timData : gmap string (gmap string doc))
    : result (gmap string (gmap string doc)) :=
  match docs with
  | [] => Ok timData
  | d :: docs' =>
      data ← pop_all ["_id"; "match_number"; "team_number"; "username"] d;
      vm ← getitem d "match_number";
      match_ ← as_str vm;
      let timData :=
        match timData !! match_ with
        | Some _ => timData
        | None => <[match_ := ∅]> timData
        end in
      vt ← getitem d "team_number";
      team ← as_str vt;
      get_tim_loop docs'
        (<[match_ := <[team := data]> (default ∅ (timData !! match_))]> timData)
  end.

Definition get (cl : client) (username : string) (event_key : string)
    : result StandStrategistData :=
  teamData ← get_team_loop
    (client_find cl event_key SS_TEAM [("username", VStr username)]) ∅;
  timData ← get_tim_loop
    (client_find cl event_key SS_TIM [("username", VStr username)]) ∅;
  Ok {| teamData := teamData; timData := timData |}.

(** *** [PUT /stand-strategist] *)

(** [teamData.update({"team_number": team, "username": username})] *)
Definition tag_team (team username : string) (data : doc) : doc :=
  <["username" := VStr username]> (<["team_number" := VStr team]> data).

(** [timData.update({"match_number": match, "team_number": team,
    "username": username})] *)
Definition tag_tim (match_ team username : string) (data : doc) : doc :=
  <["username" := VStr username]>
    (<["team_number" := VStr team]> (<["match_number" := VStr match_]> data)).

Definition team_filter (team username : string) : query :=
  [("team_number", VStr team); ("username", VStr username)].

Definition tim_filter (match_ team username : string) : query :=
  [("match_number", VStr match_); ("team_number", VStr team);
   ("username", VStr username)].

(** The write operations of the first loop, one per item of
    [data.teamData].  [map_to_list] enumerates a map in an order fixed by
    its key set, as iterating a dict does not depend on the values; the
    dict itself is iterated in insertion order, which a map does not keep,
    so the place of an operation in its batch is not that of the code. *)
Definition team_ops (username : string) (teamData : gmap string doc)
    : list ReplaceOne :=
  (λ kv, mkReplaceOne (team_filter kv.1 username)
                      (tag_team kv.1 username kv.2) true)
    <$> map_to_list teamData.

(** The write operations of the nested loops over [data.timData]. *)
Definition tim_ops (username : string) (timData : gmap string (gmap string doc))
    : list ReplaceOne :=
  mjoin ((λ mt, (λ kv, mkReplaceOne (tim_filter mt.1 kv.1 username)
                                   (tag_tim mt.1 kv.1 username kv.2) true)
                  <$> map_to_list mt.2)
           <$> map_to_list timData).

(** The loops update the inner dicts of the request body in place. *)
Definition tagged_teamData (username : string) (teamData : gmap string doc)
    : gmap string doc :=
  map_imap (λ team data, Some (tag_team team username data)) teamData.

Definition tagged_timData (username : string)
    (timData : gmap string (gmap string doc)) : gmap string (gmap string doc) :=
  map_imap (λ match_ teams,
      Some (map_imap (λ team data, Some (tag_tim match_ team username data)) teams))
    timData.

(** What a call of [update] leaves behind: the store, the request body as
    the loops left it, the [bulk_write] calls issued (collection and batch,
    in order), and whether the handler returned or raised. *)
Record update_result : Type := mkUpdateResult {
  store : client;
  body : StandStrategistData;
  calls : list (collection_name * list ReplaceOne);
  outcome : result unit
}.

(** [if bulk_ops: collection.bulk_write(bulk_ops)] *)
Definition write_if_any (cl : client) (event_key : string)
    (name : collection_name) (bulk_ops : list ReplaceOne)
    : client * list (collection_name * list ReplaceOne) * result unit :=
  match bulk_ops with
  | [] => (cl, [], Ok ())
  | _ :: _ =>
      let '(cl', r) := client_bulk_write cl event_key name bulk_ops in
      (cl', [(name, bulk_ops)], r)
  end.

Definition update (cl : client) (data : StandStrategistData)
    (username : string) (event_key : string) : update_result :=
  let bulk_ops := team_ops username (teamData data) in
  let data1 := {| teamData := tagged_teamData username (teamData data);
                  timData := timData data |} in
  let '(cl1, calls1, r1) := write_if_any cl event_key SS_TEAM bulk_ops in
  match r1 with
  | Err e => {| store := cl1; body := data1; calls := calls1; outcome := Err e |}
  | Ok _ =>
      let bulk_ops := tim_ops username (timData data) in
      let data2 := {| teamData := tagged_teamData username (teamData data);
                      timData := tagged_timData username (timData data) |} in
      let '(cl2, calls2, r2) := write_if_any cl1 event_key SS_TIM bulk_ops in
      {| store := cl2; body := data2; calls := calls1 ++ calls2; outcome := r2 |}
  end.

End StandStrategist.

(** ** Vocabulary of the properties *)

Section Vocabulary.
Import Mongo StandStrategist.

(** No document is selected by both queries. *)
Definition exclusive (q1 q2 : query) : Prop :=
  ∀ d, matches q1 d = true → matches q2 d = true → False.

(** The query of [get]: the records of one user. *)
Definition user_filter (username : string) : query :=
  [("username", VStr username)].

(** Two documents agree on every field but [_id]. *)
Definition same_fields (d1 d2 : doc) : Prop :=
  ∀ k, k ≠ "_id" → d1 !! k = d2 !! k.

Definition id_free (q : query) : Prop := Forall (λ kv, kv.1 ≠ "_id") q.

(** The shape of the operations [update] builds: an upsert whose
    replacement is selected by its own filter. *)
Record sound (op : ReplaceOne) : Prop := mkSound {
  sound_upsert : upsert op = true;
  sound_id_free : id_free (filter op);
  sound_self : matches (filter op) (replacement op) = true
}.

(** A batch addresses each record at most once. *)
Inductive batch : list ReplaceOne → Prop :=
  | batch_nil : batch []
  | batch_cons op ops :
      sound op →
      Forall (λ op', exclusive (filter op) (filter op')) ops →
      batch ops →
      batch (op :: ops).

(** What a successful [replace_one] did to the collection. *)
Inductive written (op : ReplaceOne) (c c' : collection) : Prop :=
  | written_replace l1 old new l2 :
      c = l1 ++ old :: l2 →
      c' = l1 ++ new :: l2 →
      find (filter op) l1 = [] →
      matches (filter op) old = true →
      replace_doc old (replacement op) = Ok new →
      written op c c'
  | written_insert new :
      find (filter op) c = [] →
      c' = c ++ [new] →
      new_doc c (replacement op) = Ok new →
      written op c c'.

(** What [get] makes of a record: the document without its identifying
    fields. *)
Definition strip_team (d : doc) : doc :=
  delete "username" (delete "team_number" (delete "_id" d)).

Definition strip_tim (d : doc) : doc :=
  delete "username" (delete "team_number" (delete "match_number" (delete "_id" d))).

Definition team_of (t : string) (d : doc) : bool :=
  bool_decide (d !! "team_number" = Some (VStr t)).

Definition match_of (m : string) (d : doc) : bool :=
  bool_decide (d !! "match_number" = Some (VStr m)).

(** [timData[match][team]], when both keys are there. *)
Definition lookup2 (td : gmap string (gmap string doc)) (m t : string)
    : option doc :=
  teams ← td !! m; teams !! t.

(** [timData[match][team] = data], the inner dict being created when the
    match is new. *)
Definition tim_put (m t : string) (data : doc)
    (td : gmap string (gmap string doc)) : gmap string (gmap string doc) :=
  <[m := <[t := data]> (default ∅ (td !! m))]> td.

(** A data-point map that uses none of the identifying names. *)
Definition plain_team (d : doc) : Prop :=
  d !! "_id" = None ∧ d !! "team_number" = None ∧ d !! "username" = None.

Definition plain_tim (d : doc) : Prop :=
  d !! "_id" = None ∧ d !! "match_number" = None ∧
  d !! "team_number" = None ∧ d !! "username" = None.

(** A view that can be read back: plain data-point maps, and no match
    without a team. *)
Record plain_view (data : StandStrategistData) : Prop := mkPlainView {
  plain_teamData : ∀ t d, teamData data !! t = Some d → plain_team d;
  plain_timData : ∀ m teams t d,
    timData data !! m = Some teams → teams !! t = Some d → plain_tim d;
  plain_matches : ∀ m teams, timData data !! m = Some teams → teams ≠ ∅
}.

(** The view holds at least one data-point map. *)
Definition has_data (data : StandStrategistData) : Prop :=
  (∃ t, is_Some (teamData data !! t)) ∨
  (∃ m t, is_Some (lookup2 (timData data) m t)).

(** Some data-point map of the view uses an identifying name. *)
Definition uses_identifying_name (data : StandStrategistData) : Prop :=
  (∃ t d key, teamData data !! t = Some d ∧
              key ∈ ["_id"; "team_number"; "username"] ∧ is_Some (d !! key)) ∨
  (∃ m t d key, lookup2 (timData data) m t = Some d ∧
                key ∈ ["_id"; "match_number"; "team_number"; "username"] ∧
                is_Some (d !! key)).

(** The shape of the records [update] writes. *)
Definition team_record (d : doc) : Prop :=
  is_Some (d !! "_id") ∧
  (∃ t, d !! "team_number" = Some (VStr t)) ∧
  (∃ u, d !! "username" = Some (VStr u)).

Definition tim_record (d : doc) : Prop :=
  is_Some (d !! "_id") ∧
  (∃ m, d !! "match_number" = Some (VStr m)) ∧
  (∃ t, d !! "team_number" = Some (VStr t)) ∧
  (∃ u, d !! "username" = Some (VStr u)).

Record well_formed (db : database) : Prop := mkWellFormed {
  wf_team : Forall team_record (ss_team db);
  wf_tim : Forall tim_record (ss_tim db)
}.

(** At most one record per (team, username) and per (match, team,
    username). *)
Record keyed (db : database) : Prop := mkKeyed {
  keyed_team : ∀ t u, (length (find (team_filter t u) (ss_team db)) ≤ 1)%nat;
  keyed_tim : ∀ m t u, (length (find (tim_filter m t u) (ss_tim db)) ≤ 1)%nat
}.

(** Every record the store holds for [username] is for a key of the
    view. *)
Record covered (data : StandStrategistData) (username : string)
    (db : database) : Prop := mkCovered {
  covered_team : ∀ t,
    find (team_filter t username) (ss_team db) ≠ [] →
    is_Some (teamData data !! t);
  covered_tim : ∀ m t,
    find (tim_filter m t username) (ss_tim db) ≠ [] →
    is_Some (lookup2 (timData data) m t)
}.

(** The stores that calls of [update] build from nothing. *)
Inductive created_by_update : client → Prop :=
  | created_empty : created_by_update empty_client
  | created_update cl data username event_key :
      created_by_update cl →
      created_by_update (store (update cl data username event_key)).

End Vocabulary.

(** ** Sample data *)

Module Samples.
Import Mongo StandStrategist.

Definition event : string := "2024cc".

(** The example of the specification. *)
Definition alice_view : StandStrategistData :=
  {| teamData := {[ "100" := {[ "notes" := VStr "fast" ]} ]};
     timData := {[ "12" := {[ "100" := {[ "score" := VNum 5 ]} ]} ]} |}.

Definition bob_view : StandStrategistData :=
  {| teamData := {[ "254" := {[ "notes" := VStr "tall" ]} ]};
     timData := ∅ |}.

(** Team 100 with data points [{a: 1, b: 2}], then with [{a: 9}]. *)
Definition view_ab : StandStrategistData :=
  {| teamData := {[ "100" := {[ "a" := VNum 1; "b" := VNum 2 ]} ]};
     timData := ∅ |}.

Definition view_a9 : StandStrategistData :=
  {| teamData := {[ "100" := {[ "a" := VNum 9 ]} ]}; timData := ∅ |}.

(** A data point called [username]. *)
Definition view_named : StandStrategistData :=
  {| teamData := {[ "100" := {[ "a" := VNum 9; "username" := VStr "mallory" ]} ]};
     timData := ∅ |}.

(** A match without a team. *)
Definition view_empty_match : StandStrategistData :=
  {| teamData := ∅; timData := {[ "12" := ∅ ]} |}.

Definition store_alice : client := store (update empty_client alice_view "alice" event).

Definition store_ab : client := store (update empty_client view_ab "alice" event).

(** Two team records under one key, which [update] alone never leaves. *)
Definition store_twice : client :=
  λ _, {| ss_team :=
            [ {[ "_id" := VOid 0; "team_number" := VStr "100";
                 "username" := VStr "alice"; "a" := VNum 1 ]};
              {[ "_id" := VOid 1; "team_number" := VStr "100";
                 "username" := VStr "alice"; "a" := VNum 2 ]} ];
          ss_tim := [] |}.

(** A data point called [_id], with a value no stored record has. *)
Definition view_with_id : StandStrategistData :=
  {| teamData := {[ "100" := {[ "_id" := VNum 7; "a" := VNum 9 ]} ]};
     timData := {[ "12" := {[ "100" := {[ "score" := VNum 5 ]} ]} ]} |}.

(** What [get] reads from [store_twice]. *)
Definition view_second : StandStrategistData :=
  {| teamData := {[ "100" := {[ "a" := VNum 2 ]} ]}; timData := ∅ |}.

(** [alice_view] with the team of [bob_view] next to it. *)
Definition view_both : StandStrategistData :=
  {| teamData := {[ "100" := {[ "notes" := VStr "fast" ]};
                    "254" := {[ "notes" := VStr "tall" ]} ]};
     timData := {[ "12" := {[ "100" := {[ "score" := VNum 5 ]} ]} ]} |}.

(** A match-team record without [username]. *)
Definition store_nameless : client :=
  λ _, {| ss_team := [];
          ss_tim := [ {[ "_id" := VOid 0; "match_number" := VStr "12";
                         "team_number" := VStr "100" ]} ] |}.

(** A team record without [_id], as no call of [update] leaves one. *)
Definition broken_record : doc :=
  {[ "team_number" := VStr "100"; "username" := VStr "alice" ]}.

Definition store_broken : client :=
  λ _, {| ss_team := [broken_record]; ss_tim := [] |}.

End Samples.

(** ** The document store: facts *)

Section MongoFacts.
Import Mongo.

Arguments find : simpl never.

Lemma matches_cons kv q d :
  matches (kv :: q) d = bool_decide (d !! kv.1 = Some kv.2) && matches q d.
Proof. reflexivity. Qed.

Lemma matches_lookup q d k v :
  matches q d = true → (k, v) ∈ q → d !! k = Some v.
Proof.
  unfold matches. rewrite forallb_forall. intros Hq Hin.
  apply list_elem_of_In in Hin. apply Hq in Hin.
  by apply bool_decide_eq_true in Hin.
Qed.

Lemma matches_same_fields q d1 d2 :
  id_free q → same_fields d1 d2 → matches q d1 = matches q d2.
Proof.
  intros Hq Hd. induction Hq as [|kv q Hk Hq IH]; [done|].
  rewrite !matches_cons, IH. by rewrite (Hd _ Hk).
Qed.

Lemma find_app q c1 c2 : find q (c1 ++ c2) = find q c1 ++ find q c2.
Proof. apply List.filter_app. Qed.

Lemma find_cons q d c :
  find q (d :: c) = if matches q d then d :: find q c else find q c.
Proof. reflexivity. Qed.

Lemma find_nil_Forall q c :
  find q c = [] ↔ Forall (λ d, matches q d = false) c.
Proof.
  induction c as [|d c IH]; [split; [constructor|reflexivity]|].
  rewrite find_cons, Forall_cons. destruct (matches q d) eqn:Hd.
  - split; [done|]. by intros [? _].
  - rewrite IH. split; [by split | by intros [_ ?]].
Qed.

Lemma find_elem_of q c d : d ∈ find q c ↔ d ∈ c ∧ matches q d = true.
Proof.
  unfold find. rewrite !list_elem_of_In, List.filter_In. done.
Qed.

Lemma first_match_Some q c i d :
  first_match q c = Some (i, d) →
  ∃ l1 l2, c = l1 ++ d :: l2 ∧ i = length l1 ∧
           find q l1 = [] ∧ matches q d = true.
Proof.
  revert i. induction c as [|x c IH]; intros i; simpl; [done|].
  destruct (matches q x) eqn:Hx.
  - intros [= <- <-]. by exists [], c.
  - destruct (first_match q c) as [[j y]|]; [|done].
    intros [= <- <-]. destruct (IH j eq_refl) as (l1 & l2 & -> & -> & Hl1 & Hy).
    exists (x :: l1), l2. repeat split; [|done].
    by rewrite find_cons, Hx.
Qed.

Lemma first_match_None q c : first_match q c = None → find q c = [].
Proof.
  induction c as [|x c IH]; simpl; [done|].
  rewrite find_cons. destruct (matches q x); [done|].
  destruct (first_match q c); [done|]. auto.
Qed.

Lemma first_match_middle q l1 d l2 :
  find q l1 = [] → matches q d = true →
  first_match q (l1 ++ d :: l2) = Some (length l1, d).
Proof.
  intros Hl1 Hd. induction l1 as [|x l1 IH]; simpl.
  - by rewrite Hd.
  - rewrite find_cons in Hl1. destruct (matches q x); [done|].
    by rewrite IH.
Qed.

Lemma insert_middle (l1 l2 : list doc) (d x : doc) :
  <[length l1 := x]> (l1 ++ d :: l2) = l1 ++ x :: l2.
Proof. induction l1 as [|y l1 IH]; simpl; [done|]. by rewrite IH. Qed.

Lemma replace_one_written op c c' :
  upsert op = true → replace_one op c = Ok c' → written op c c'.
Proof.
  unfold replace_one. intros Hup.
  destruct (first_match (filter op) c) as [[i old]|] eqn:Hfm.
  - apply first_match_Some in Hfm as (l1 & l2 & -> & -> & Hl1 & Hold).
    destruct (replace_doc old (replacement op)) as [new|] eqn:Hnew; [|done].
    simpl. intros [= <-]. eapply written_replace; eauto.
    by rewrite insert_middle.
  - apply first_match_None in Hfm. rewrite Hup.
    destruct (new_doc c (replacement op)) as [new|] eqn:Hnew; [|done].
    simpl. intros [= <-]. by eapply written_insert.
Qed.

(** *** What the written document looks like *)

Lemma keep_id_same_fields old repl : same_fields (keep_id old repl) repl.
Proof.
  unfold keep_id. intros k Hk. destruct (old !! "_id"); [|done].
  by rewrite lookup_insert_ne.
Qed.

Lemma keep_id_lookup_id old repl :
  repl !! "_id" = None → keep_id old repl !! "_id" = old !! "_id".
Proof.
  unfold keep_id. intros Hr. destruct (old !! "_id") eqn:Ho; [|done].
  by rewrite lookup_insert_eq.
Qed.

Lemma replace_doc_same_fields old repl new :
  replace_doc old repl = Ok new → same_fields new repl.
Proof.
  unfold replace_doc. destruct (repl !! "_id").
  - destruct (has_id v old); [|done]. by intros [= <-].
  - intros [= <-]. apply keep_id_same_fields.
Qed.

Lemma replace_doc_lookup_id old repl new :
  replace_doc old repl = Ok new → new !! "_id" = old !! "_id".
Proof.
  unfold replace_doc. destruct (repl !! "_id") eqn:Hr.
  - destruct (has_id v old) eqn:Hv; [|done]. intros [= <-].
    apply bool_decide_eq_true in Hv. congruence.
  - intros [= <-]. by apply keep_id_lookup_id.
Qed.

(** Replacing a document by its own replacement a second time changes
    nothing. *)
Lemma replace_doc_again old repl new :
  replace_doc old repl = Ok new → replace_doc new repl = Ok new.
Proof.
  unfold replace_doc. destruct (repl !! "_id") eqn:Hr.
  - destruct (has_id v old); [|done]. intros [= <-].
    unfold has_id. by rewrite bool_decide_eq_true_2.
  - intros [= <-]. f_equal. unfold keep_id at 1.
    by rewrite keep_id_lookup_id.
Qed.

Lemma new_doc_same_fields c repl new :
  new_doc c repl = Ok new → same_fields new repl.
Proof.
  unfold new_doc. destruct (repl !! "_id").
  - destruct (existsb _ c); [done|]. by intros [= <-].
  - intros [= <-] k Hk. by rewrite lookup_insert_ne.
Qed.

Lemma new_doc_has_id c repl new :
  new_doc c repl = Ok new → is_Some (new !! "_id").
Proof.
  unfold new_doc. destruct (repl !! "_id") eqn:Hr.
  - destruct (existsb _ c); [done|]. intros [= <-]. by rewrite Hr.
  - intros [= <-]. by rewrite lookup_insert_eq.
Qed.

Lemma new_doc_again c repl new :
  new_doc c repl = Ok new → replace_doc new repl = Ok new.
Proof.
  unfold new_doc, replace_doc. destruct (repl !! "_id") eqn:Hr.
  - destruct (existsb _ c); [done|]. intros [= <-].
    unfold has_id. by rewrite bool_decide_eq_true_2.
  - intros [= <-]. f_equal. unfold keep_id.
    by rewrite lookup_insert_eq.
Qed.

(** *** What a query sees after a write *)

(** The written document: selected by the filter, equal to the replacement
    up to [_id]. *)
Lemma written_find_self op c c' :
  sound op → written op c c' →
  ∃ new, find (filter op) c' = new :: tail (find (filter op) c) ∧
         same_fields new (replacement op) ∧
         (find (filter op) c = [] → is_Some (new !! "_id")) ∧
         (∀ old, head (find (filter op) c) = Some old →
                 new !! "_id" = old !! "_id").
Proof.
  intros [_ Hfree Hself] [l1 old new l2 -> -> Hl1 Hold Hnew|new Hc -> Hnew].
  - pose proof (replace_doc_same_fields _ _ _ Hnew) as Hsame.
    exists new. rewrite !find_app, Hl1, !find_cons, Hold. simpl.
    rewrite (matches_same_fields _ _ _ Hfree Hsame), Hself.
    repeat split; [done|done|].
    intros old' [= <-]. by eapply replace_doc_lookup_id.
  - pose proof (new_doc_same_fields _ _ _ Hnew) as Hsame.
    exists new. rewrite find_app, Hc, find_cons. simpl.
    rewrite (matches_same_fields _ _ _ Hfree Hsame), Hself.
    repeat split; [done| |done]. intros _. by eapply new_doc_has_id.
Qed.

(** A query that excludes the filter sees no difference. *)
Lemma written_find_other op c c' q :
  sound op → exclusive q (filter op) → written op c c' →
  find q c' = find q c.
Proof.
  intros [_ Hfree Hself] Hex [l1 old new l2 -> -> Hl1 Hold Hnew|new Hc -> Hnew].
  - pose proof (replace_doc_same_fields _ _ _ Hnew) as Hsame.
    assert (matches (filter op) new = true) as Hn
      by by rewrite (matches_same_fields _ _ _ Hfree Hsame).
    rewrite !find_app, !find_cons.
    destruct (matches q old) eqn:Ho; [by destruct (Hex old)|].
    destruct (matches q new) eqn:Hq; [by destruct (Hex new)|]. done.
  - pose proof (new_doc_same_fields _ _ _ Hnew) as Hsame.
    assert (matches (filter op) new = true) as Hn
      by by rewrite (matches_same_fields _ _ _ Hfree Hsame).
    rewrite find_app, find_cons.
    destruct (matches q new) eqn:Hq; [by destruct (Hex new)|].
    apply app_nil_r.
Qed.

(** A property of documents that writing maintains holds of the whole
    collection afterwards. *)
Lemma written_Forall (P : doc → Prop) op c c' :
  (∀ old new, P old → replace_doc old (replacement op) = Ok new → P new) →
  (∀ new, new_doc c (replacement op) = Ok new → P new) →
  written op c c' → Forall P c → Forall P c'.
Proof.
  intros Hrep Hins [l1 old new l2 -> -> Hl1 Hold Hnew|new Hc -> Hnew].
  - rewrite !Forall_app, !Forall_cons. intros (? & ? & ?). eauto.
  - rewrite Forall_app, Forall_singleton. eauto.
Qed.

(** *** Writing twice *)

Lemma first_match_head q c : snd <$> first_match q c = head (find q c).
Proof.
  induction c as [|x c IH]; [done|]. cbn [first_match]. rewrite find_cons.
  destruct (matches q x); [done|]. rewrite <- IH.
  by destruct (first_match q c) as [[??]|].
Qed.

Lemma first_match_lookup q c i d :
  first_match q c = Some (i, d) → c !! i = Some d.
Proof.
  intros (l1 & l2 & -> & -> & _)%first_match_Some.
  by rewrite list_lookup_middle.
Qed.

(** An operation leaves the collection as it is exactly when the first
    selected document is already what the operation would write. *)
Lemma replace_one_settled op c :
  upsert op = true →
  replace_one op c = Ok c ↔
  ∃ old, head (find (filter op) c) = Some old ∧
         replace_doc old (replacement op) = Ok old.
Proof.
  intros Hup. split.
  - intros [l1 old new l2 Hc Hc' Hl1 Hold Hnew|new _ Hc _]%replace_one_written;
      [|by apply (f_equal length) in Hc; rewrite length_app in Hc; simpl in Hc; lia
       |done].
    rewrite Hc in Hc'. apply app_inv_head in Hc'. injection Hc' as ->.
    exists new. by rewrite Hc, find_app, Hl1, find_cons, Hold.
  - intros (old & Hhead & Hold). rewrite <- first_match_head in Hhead.
    unfold replace_one.
    destruct (first_match (filter op) c) as [[i d]|] eqn:Hfm; [|done].
    injection Hhead as ->. rewrite Hold. simpl.
    by rewrite list_insert_id by by eapply first_match_lookup.
Qed.

Lemma replace_one_again op c c' :
  sound op → replace_one op c = Ok c' → replace_one op c' = Ok c'.
Proof.
  intros Hop Hc. pose proof Hop as [Hup _ _].
  apply replace_one_written in Hc; [|done].
  destruct (written_find_self _ _ _ Hop Hc) as (new & Hfind & _).
  apply replace_one_settled; [done|]. exists new. rewrite Hfind.
  split; [done|].
  destruct Hc as [l1 old new' l2 -> -> Hl1 Hold Hnew|new' Hc' -> Hnew].
  - rewrite find_app, Hl1, find_cons in Hfind.
    destruct (matches (filter op) new') eqn:Hm; simpl in Hfind.
    + injection Hfind as <- _. by eapply replace_doc_again.
    + pose proof (replace_doc_same_fields _ _ _ Hnew) as Hsame.
      destruct Hop as [_ Hfree Hself].
      by rewrite (matches_same_fields _ _ _ Hfree Hsame), Hself in Hm.
  - rewrite find_app, Hc', find_cons in Hfind.
    destruct (matches (filter op) new') eqn:Hm; simpl in Hfind.
    + injection Hfind as <-. by eapply new_doc_again.
    + done.
Qed.

Lemma exclusive_sym q1 q2 : exclusive q1 q2 → exclusive q2 q1.
Proof. intros H d ??. by apply (H d). Qed.

(** *** Batches *)

Lemma bulk_write_cons op ops c :
  bulk_write (op :: ops) c =
    match replace_one op c with
    | Ok c' => bulk_write ops c'
    | Err e => (c, Err e)
    end.
Proof. reflexivity. Qed.

Lemma batch_sound ops : batch ops → Forall sound ops.
Proof. induction 1; by constructor. Qed.

(** A query that excludes every filter of the batch sees no difference,
    whether the batch completes or not. *)
Lemma bulk_write_find_other q ops c :
  Forall sound ops →
  Forall (λ op, exclusive q (filter op)) ops →
  find q (bulk_write ops c).1 = find q c.
Proof.
  intros Hs. revert c. induction Hs as [|op ops Hop _ IH]; intros c Hex; [done|].
  apply Forall_cons in Hex as [Hex1 Hex]. rewrite bulk_write_cons.
  destruct (replace_one op c) as [c'|e] eqn:Hc; [|done].
  rewrite IH by done. eapply written_find_other; [done..|].
  apply replace_one_written; [apply Hop|done].
Qed.

(** After a batch that completed, each of its filters selects first the
    document written for it. *)
Lemma bulk_write_find_self ops op c :
  batch ops → op ∈ ops → (bulk_write ops c).2 = Ok () →
  ∃ new, find (filter op) (bulk_write ops c).1
           = new :: tail (find (filter op) c) ∧
         same_fields new (replacement op) ∧
         (find (filter op) c = [] → is_Some (new !! "_id")) ∧
         (∀ old, head (find (filter op) c) = Some old →
                 new !! "_id" = old !! "_id").
Proof.
  intros Hb. revert c. induction Hb as [|op0 ops Hop0 Hex Hb IH]; intros c Hin.
  { by apply elem_of_nil in Hin. }
  rewrite bulk_write_cons.
  destruct (replace_one op0 c) as [c'|e] eqn:Hc; [|done].
  apply replace_one_written in Hc; [|apply Hop0].
  intros Hok. apply elem_of_cons in Hin as [->|Hin].
  - rewrite bulk_write_find_other; [|by apply batch_sound|done].
    by apply written_find_self.
  - assert (find (filter op) c' = find (filter op) c) as <-; [|by apply IH].
    eapply written_find_other; [done| |done].
    apply exclusive_sym. by eapply (proj1 (Forall_forall _ _) Hex).
Qed.

(** An operation that has nothing left to do stays so while the rest of
    the batch runs. *)
Lemma bulk_write_settled op ops c :
  upsert op = true → Forall sound ops →
  Forall (λ op', exclusive (filter op) (filter op')) ops →
  replace_one op c = Ok c →
  replace_one op (bulk_write ops c).1 = Ok (bulk_write ops c).1.
Proof.
  intros Hup Hs Hex. rewrite !replace_one_settled by done.
  by rewrite bulk_write_find_other.
Qed.

(** Running a batch a second time changes nothing and ends the same way. *)
Lemma bulk_write_again ops c :
  batch ops → bulk_write ops (bulk_write ops c).1 = bulk_write ops c.
Proof.
  intros Hb. revert c. induction Hb as [|op ops Hop Hex Hb IH]; intros c; [done|].
  rewrite (bulk_write_cons op ops c).
  destruct (replace_one op c) as [c'|e] eqn:Hc.
  - rewrite bulk_write_cons, bulk_write_settled; [apply IH|apply Hop| |done|].
    + by apply batch_sound.
    + by eapply replace_one_again.
  - simpl. by rewrite Hc.
Qed.

(** A property of documents that every write of the batch maintains. *)
Lemma bulk_write_Forall (P : doc → Prop) ops c :
  Forall sound ops →
  (∀ op old new, op ∈ ops → P old →
     replace_doc old (replacement op) = Ok new → P new) →
  (∀ op c' new, op ∈ ops → new_doc c' (replacement op) = Ok new → P new) →
  Forall P c → Forall P (bulk_write ops c).1.
Proof.
  intros Hs. revert c. induction Hs as [|op ops Hop _ IH]; intros c Hrep Hins Hc.
  { done. }
  rewrite bulk_write_cons.
  destruct (replace_one op c) as [c'|e] eqn:Hc'; [|done].
  apply IH.
  - intros. eapply Hrep; [by apply list_elem_of_further|done..].
  - intros. eapply Hins; [by apply list_elem_of_further|done].
  - eapply (written_Forall P op c c'); [| |by apply replace_one_written; [apply Hop|]|done].
    + intros. eapply Hrep; [by apply list_elem_of_here|done..].
    + intros. eapply Hins; [by apply list_elem_of_here|done].
Qed.

(** At most one record per key, before and after. *)
Lemma bulk_write_unique q ops c :
  Forall sound ops →
  Forall (λ op, filter op = q ∨ exclusive q (filter op)) ops →
  (length (find q c) ≤ 1)%nat → (length (find q (bulk_write ops c).1) ≤ 1)%nat.
Proof.
  intros Hs. revert c. induction Hs as [|op ops Hop _ IH]; intros c Hq Hc; [done|].
  apply Forall_cons in Hq as [Hq1 Hq]. rewrite bulk_write_cons.
  destruct (replace_one op c) as [c'|e] eqn:Hc'; [|done].
  apply replace_one_written in Hc'; [|apply Hop].
  apply IH; [done|]. destruct Hq1 as [<-|Hex].
  - destruct (written_find_self _ _ _ Hop Hc') as (new & -> & _).
    destruct (find (filter op) c); simpl in *; lia.
  - by rewrite (written_find_other _ _ _ _ Hop Hex Hc').
Qed.

End MongoFacts.

(** ** The handlers: the batches [update] builds *)

Section Batches.
Import Mongo StandStrategist.

Lemma matches_user_filter d u :
  matches (user_filter u) d = true ↔ d !! "username" = Some (VStr u).
Proof.
  unfold matches, user_filter. simpl.
  rewrite andb_true_r. apply bool_decide_eq_true.
Qed.

Lemma matches_team_filter d t u :
  matches (team_filter t u) d = true ↔
  d !! "team_number" = Some (VStr t) ∧ d !! "username" = Some (VStr u).
Proof.
  unfold matches, team_filter. simpl.
  by rewrite andb_true_r, andb_true_iff, !bool_decide_eq_true.
Qed.

Lemma matches_tim_filter d m t u :
  matches (tim_filter m t u) d = true ↔
  d !! "match_number" = Some (VStr m) ∧
  d !! "team_number" = Some (VStr t) ∧ d !! "username" = Some (VStr u).
Proof.
  unfold matches, tim_filter. simpl.
  by rewrite andb_true_r, !andb_true_iff, !bool_decide_eq_true.
Qed.

Lemma team_filter_exclusive t u t' u' :
  (t, u) ≠ (t', u') → exclusive (team_filter t u) (team_filter t' u').
Proof.
  intros Hne d [H1 H2]%matches_team_filter [H3 H4]%matches_team_filter.
  apply Hne. congruence.
Qed.

Lemma tim_filter_exclusive m t u m' t' u' :
  (m, t, u) ≠ (m', t', u') → exclusive (tim_filter m t u) (tim_filter m' t' u').
Proof.
  intros Hne d (H1 & H2 & H3)%matches_tim_filter (H4 & H5 & H6)%matches_tim_filter.
  apply Hne. congruence.
Qed.

Lemma user_team_exclusive u t u' :
  u ≠ u' → exclusive (user_filter u) (team_filter t u').
Proof.
  intros Hne d H1%matches_user_filter [_ H2]%matches_team_filter.
  apply Hne. congruence.
Qed.

Lemma user_tim_exclusive u m t u' :
  u ≠ u' → exclusive (user_filter u) (tim_filter m t u').
Proof.
  intros Hne d H1%matches_user_filter (_ & _ & H2)%matches_tim_filter.
  apply Hne. congruence.
Qed.

Lemma tag_team_lookup_team t u d : tag_team t u d !! "team_number" = Some (VStr t).
Proof. unfold tag_team. by rewrite lookup_insert_ne, lookup_insert_eq. Qed.

Lemma tag_team_lookup_user t u d : tag_team t u d !! "username" = Some (VStr u).
Proof. unfold tag_team. by rewrite lookup_insert_eq. Qed.

Lemma tag_team_lookup_other t u d k :
  k ≠ "team_number" → k ≠ "username" → tag_team t u d !! k = d !! k.
Proof. intros. unfold tag_team. by rewrite !lookup_insert_ne. Qed.

Lemma tag_tim_lookup_match m t u d : tag_tim m t u d !! "match_number" = Some (VStr m).
Proof.
  unfold tag_tim. do 2 (rewrite lookup_insert_ne by done).
  by rewrite lookup_insert_eq.
Qed.

Lemma tag_tim_lookup_team m t u d : tag_tim m t u d !! "team_number" = Some (VStr t).
Proof. unfold tag_tim. by rewrite lookup_insert_ne, lookup_insert_eq. Qed.

Lemma tag_tim_lookup_user m t u d : tag_tim m t u d !! "username" = Some (VStr u).
Proof. unfold tag_tim. by rewrite lookup_insert_eq. Qed.

Lemma tag_tim_lookup_other m t u d k :
  k ≠ "match_number" → k ≠ "team_number" → k ≠ "username" →
  tag_tim m t u d !! k = d !! k.
Proof. intros. unfold tag_tim. by rewrite !lookup_insert_ne. Qed.

(** Tagging a tagged dict again leaves it as it is. *)
Lemma tag_team_again t u d : tag_team t u (tag_team t u d) = tag_team t u d.
Proof.
  apply map_eq. intros k.
  destruct (decide (k = "username")) as [->|?];
    [by rewrite !tag_team_lookup_user|].
  destruct (decide (k = "team_number")) as [->|?];
    [by rewrite !tag_team_lookup_team|].
  by rewrite !tag_team_lookup_other.
Qed.

Lemma tag_tim_again m t u d : tag_tim m t u (tag_tim m t u d) = tag_tim m t u d.
Proof.
  apply map_eq. intros k.
  destruct (decide (k = "username")) as [->|?];
    [by rewrite !tag_tim_lookup_user|].
  destruct (decide (k = "team_number")) as [->|?];
    [by rewrite !tag_tim_lookup_team|].
  destruct (decide (k = "match_number")) as [->|?];
    [by rewrite !tag_tim_lookup_match|].
  by rewrite !tag_tim_lookup_other.
Qed.

Lemma team_op_sound t u d :
  sound (mkReplaceOne (team_filter t u) (tag_team t u d) true).
Proof.
  split; simpl.
  - done.
  - by repeat constructor.
  - apply matches_team_filter.
    by rewrite tag_team_lookup_team, tag_team_lookup_user.
Qed.

Lemma tim_op_sound m t u d :
  sound (mkReplaceOne (tim_filter m t u) (tag_tim m t u d) true).
Proof.
  split; simpl.
  - done.
  - by repeat constructor.
  - apply matches_tim_filter.
    by rewrite tag_tim_lookup_match, tag_tim_lookup_team, tag_tim_lookup_user.
Qed.

(** One operation per key of a dict makes a batch. *)
Lemma batch_of_items (g : string → query) (h : string → doc → doc)
    (l : list (string * doc)) :
  NoDup l.*1 →
  (∀ k k', k ≠ k' → exclusive (g k) (g k')) →
  (∀ k v, sound (mkReplaceOne (g k) (h k v) true)) →
  batch ((λ kv, mkReplaceOne (g kv.1) (h kv.1 kv.2) true) <$> l).
Proof.
  intros Hnd Hex Hs. induction l as [|[k v] l IH]; [constructor|].
  rewrite fmap_cons in Hnd. apply NoDup_cons in Hnd as [Hk Hnd].
  rewrite fmap_cons. constructor; [apply Hs| |by apply IH].
  apply Forall_fmap, Forall_forall. intros [k' v'] Hin. simpl.
  apply Hex. intros ->. apply Hk.
  apply list_elem_of_fmap. by exists (k', v').
Qed.

Lemma batch_app ops1 ops2 :
  batch ops1 → batch ops2 →
  (∀ a b, a ∈ ops1 → b ∈ ops2 → exclusive (filter a) (filter b)) →
  batch (ops1 ++ ops2).
Proof.
  intros H1 H2 Hex. induction H1 as [|op ops Hop Hexs Hb IH]; [done|].
  simpl. constructor; [done| |].
  - apply Forall_app. split; [done|]. apply Forall_forall. intros b Hb'.
    apply Hex; [apply list_elem_of_here|done].
  - apply IH. intros a b Ha. apply Hex. by apply list_elem_of_further.
Qed.

Lemma team_ops_elem u td op :
  op ∈ team_ops u td ↔
  ∃ t d, td !! t = Some d ∧
         op = mkReplaceOne (team_filter t u) (tag_team t u d) true.
Proof.
  unfold team_ops. rewrite list_elem_of_fmap. split.
  - intros ([t d] & -> & Hin%elem_of_map_to_list). by exists t, d.
  - intros (t & d & Htd & ->). exists (t, d).
    split; [done|]. by apply elem_of_map_to_list.
Qed.

Lemma team_ops_batch u td : batch (team_ops u td).
Proof.
  apply (batch_of_items (λ t, team_filter t u) (λ t, tag_team t u)).
  - apply NoDup_fst_map_to_list.
  - intros t t' Hne. apply team_filter_exclusive. congruence.
  - intros. apply team_op_sound.
Qed.

Lemma tim_ops_elem u td op :
  op ∈ tim_ops u td ↔
  ∃ m teams t d, td !! m = Some teams ∧ teams !! t = Some d ∧
                 op = mkReplaceOne (tim_filter m t u) (tag_tim m t u d) true.
Proof.
  unfold tim_ops. rewrite list_elem_of_join. split.
  - intros (l & Hop & ([m teams] & -> & Hin%elem_of_map_to_list)%list_elem_of_fmap).
    apply list_elem_of_fmap in Hop as ([t d] & -> & Hin'%elem_of_map_to_list).
    by exists m, teams, t, d.
  - intros (m & teams & t & d & Hm & Ht & ->).
    exists ((λ kv, mkReplaceOne (tim_filter m kv.1 u)
                                (tag_tim m kv.1 u kv.2) true)
              <$> map_to_list teams).
    split.
    + apply list_elem_of_fmap. exists (t, d).
      split; [done|]. apply elem_of_map_to_list, Ht.
    + apply list_elem_of_fmap. exists (m, teams).
      split; [done|]. by apply elem_of_map_to_list.
Qed.

Lemma tim_ops_batch u td : batch (tim_ops u td).
Proof.
  unfold tim_ops. pose proof (NoDup_fst_map_to_list td) as Hnd.
  induction (map_to_list td) as [|[m teams] l IH]; [constructor|].
  rewrite fmap_cons in Hnd. apply NoDup_cons in Hnd as [Hm Hnd].
  rewrite fmap_cons. simpl. apply batch_app; [|by apply IH|].
  - apply (batch_of_items (λ t, tim_filter m t u) (λ t, tag_tim m t u)).
    + apply NoDup_fst_map_to_list.
    + intros t t' Hne. apply tim_filter_exclusive. congruence.
    + intros. apply tim_op_sound.
  - intros a b ([t d] & -> & _)%list_elem_of_fmap Hb.
    apply list_elem_of_join in Hb as (l' & Hb & Hl').
    apply list_elem_of_fmap in Hl' as ([m' teams'] & -> & Hin).
    apply list_elem_of_fmap in Hb as ([t' d'] & -> & _). simpl.
    apply tim_filter_exclusive. intros [= -> _]. apply Hm.
    apply list_elem_of_fmap. by exists (m', teams').
Qed.

End Batches.

(** ** The handlers: the request body after the loops *)

Section Tagging.
Import Mongo StandStrategist.

(** Updating the values of a dict in place does not change the order in
    which its items are visited. *)
Lemma map_to_list_imap_Some {A B} (g : string → A → B) (m : gmap string A) :
  map_to_list (map_imap (λ k x, Some (g k x)) m)
    = (λ kv, (kv.1, g kv.1 kv.2)) <$> map_to_list m.
Proof.
  induction m as [|i x m Hi Hfirst IH] using map_first_key_ind.
  { by rewrite map_imap_empty, !map_to_list_empty. }
  rewrite (map_imap_insert_Some _ i x m (g i x)) by done.
  rewrite (map_to_list_insert_first_key m) by done.
  rewrite map_to_list_insert_first_key, IH; [done| |].
  - by rewrite map_lookup_imap, Hi.
  - eapply map_first_key_dom'; [|exact Hfirst].
    intros j. destruct (decide (i = j)) as [->|Hne].
    + rewrite !lookup_insert_eq. split; eauto.
    + rewrite !lookup_insert_ne, map_lookup_imap by done.
      destruct (m !! j); simpl; [split; eauto|done].
Qed.

Lemma tagged_teamData_lookup u td t :
  tagged_teamData u td !! t = tag_team t u <$> td !! t.
Proof.
  unfold tagged_teamData. rewrite map_lookup_imap. by destruct (td !! t).
Qed.

Lemma tagged_timData_lookup u td m :
  tagged_timData u td !! m
    = map_imap (λ t d, Some (tag_tim m t u d)) <$> td !! m.
Proof.
  unfold tagged_timData. rewrite map_lookup_imap. by destruct (td !! m).
Qed.

(** The loops build the same batches from the body they have already
    updated. *)
Lemma team_ops_tagged u td : team_ops u (tagged_teamData u td) = team_ops u td.
Proof.
  unfold team_ops, tagged_teamData.
  rewrite map_to_list_imap_Some, <- list_fmap_compose.
  apply list_fmap_ext. intros _ [t d] _. simpl. by rewrite tag_team_again.
Qed.

Lemma tim_ops_tagged u td : tim_ops u (tagged_timData u td) = tim_ops u td.
Proof.
  unfold tim_ops, tagged_timData.
  rewrite map_to_list_imap_Some, <- list_fmap_compose. f_equal.
  apply list_fmap_ext. intros _ [m teams] _. simpl.
  rewrite map_to_list_imap_Some, <- list_fmap_compose.
  apply list_fmap_ext. intros _ [t d] _. simpl. by rewrite tag_tim_again.
Qed.

End Tagging.

(** ** The handlers: what [update] leaves in the store *)

Section UpdateFacts.
Import Mongo StandStrategist.

Lemma write_if_any_spec cl k name ops :
  write_if_any cl k name ops =
    (match ops with
     | [] => cl
     | _ :: _ =>
         set_db cl k (set_collection (cl k) name
                        (bulk_write ops (get_collection (cl k) name)).1)
     end,
     match ops with [] => [] | _ :: _ => [(name, ops)] end,
     (bulk_write ops (get_collection (cl k) name)).2).
Proof.
  unfold write_if_any, client_bulk_write. destruct ops as [|op ops]; [done|].
  by destruct (bulk_write (op :: ops) (get_collection (cl k) name)).
Qed.

Lemma write_if_any_store cl k name ops ns :
  (write_if_any cl k name ops).1.1 ns =
    if bool_decide (ns = k)
    then set_collection (cl k) name
           (bulk_write ops (get_collection (cl k) name)).1
    else cl ns.
Proof.
  rewrite write_if_any_spec. simpl. destruct ops as [|op ops].
  - case_bool_decide as Hns; [|done]. subst ns.
    by destruct (cl k), name.
  - done.
Qed.

(** The two batches of [update], as run against the collections of
    [cl event_key]. *)
Lemma update_outcome cl data u k :
  outcome (update cl data u k) =
    match (bulk_write (team_ops u (teamData data)) (ss_team (cl k))).2 with
    | Err e => Err e
    | Ok _ => (bulk_write (tim_ops u (timData data)) (ss_tim (cl k))).2
    end.
Proof.
  unfold update.
  pose proof (write_if_any_spec cl k SS_TEAM (team_ops u (teamData data))) as H1.
  destruct (write_if_any cl k SS_TEAM _) as [[cl1 calls1] r1].
  injection H1 as -> -> ->. simpl.
  destruct (bulk_write (team_ops u (teamData data)) (ss_team (cl k))).2; [|done].
  match goal with |- context [write_if_any ?c k SS_TIM ?o] =>
    pose proof (write_if_any_spec c k SS_TIM o) as H2;
    destruct (write_if_any c k SS_TIM o) as [[cl2 calls2] r2] end.
  injection H2 as -> -> ->. simpl.
  destruct (team_ops u (teamData data)); [done|].
  unfold set_db. rewrite bool_decide_eq_true_2 by done. done.
Qed.

Lemma update_store cl data u k ns :
  store (update cl data u k) ns =
    if bool_decide (ns = k) then
      {| ss_team := (bulk_write (team_ops u (teamData data)) (ss_team (cl k))).1;
         ss_tim :=
           if is_ok (bulk_write (team_ops u (teamData data)) (ss_team (cl k))).2
           then (bulk_write (tim_ops u (timData data)) (ss_tim (cl k))).1
           else ss_tim (cl k) |}
    else cl ns.
Proof.
  unfold update.
  pose proof (write_if_any_store cl k SS_TEAM (team_ops u (teamData data))) as H1.
  pose proof (write_if_any_spec cl k SS_TEAM (team_ops u (teamData data))) as H1'.
  destruct (write_if_any cl k SS_TEAM _) as [[cl1 calls1] r1].
  simpl in H1. injection H1' as _ _ ->.
  destruct (bulk_write (team_ops u (teamData data)) (ss_team (cl k))).2 eqn:Hr;
    simpl.
  - match goal with |- context [write_if_any ?c k SS_TIM ?o] =>
      pose proof (write_if_any_store c k SS_TIM o ns) as H2;
      destruct (write_if_any c k SS_TIM o) as [[cl2 calls2] r2] end.
    simpl in *. rewrite H2, !H1.
    rewrite (bool_decide_eq_true_2 (k = k)) by done.
    by case_bool_decide.
  - rewrite H1. by case_bool_decide.
Qed.

Lemma update_body cl data u k :
  body (update cl data u k) =
    {| teamData := tagged_teamData u (teamData data);
       timData :=
         if is_ok (bulk_write (team_ops u (teamData data)) (ss_team (cl k))).2
         then tagged_timData u (timData data)
         else timData data |}.
Proof.
  unfold update.
  pose proof (write_if_any_spec cl k SS_TEAM (team_ops u (teamData data))) as H1.
  destruct (write_if_any cl k SS_TEAM _) as [[cl1 calls1] r1].
  injection H1 as _ _ ->.
  destruct (bulk_write (team_ops u (teamData data)) (ss_team (cl k))).2; [|done].
  by destruct (write_if_any cl1 k SS_TIM _) as [[cl2 calls2] r2].
Qed.

Lemma update_calls cl data u k :
  calls (update cl data u k) =
    match team_ops u (teamData data) with
    | [] => []
    | ops => [(SS_TEAM, ops)]
    end ++
    if is_ok (bulk_write (team_ops u (teamData data)) (ss_team (cl k))).2
    then match tim_ops u (timData data) with
         | [] => []
         | ops => [(SS_TIM, ops)]
         end
    else [].
Proof.
  unfold update.
  pose proof (write_if_any_spec cl k SS_TEAM (team_ops u (teamData data))) as H1.
  destruct (write_if_any cl k SS_TEAM _) as [[cl1 calls1] r1].
  injection H1 as -> -> ->.
  destruct (bulk_write (team_ops u (teamData data)) (ss_team (cl k))).2; simpl.
  - match goal with |- context [write_if_any ?c k SS_TIM ?o] =>
      pose proof (write_if_any_spec c k SS_TIM o) as H2;
      destruct (write_if_any c k SS_TIM o) as [[cl2 calls2] r2] end.
    injection H2 as -> -> ->. simpl.
    by destruct (team_ops u (teamData data)), (tim_ops u (timData data)).
  - by destruct (team_ops u (teamData data)).
Qed.

End UpdateFacts.

(** ** The handlers: what the loops of [get] and [users] compute *)

Section GetFacts.
Import Mongo StandStrategist.

Lemma bind_Ok {A B} (r : result A) (f : A → result B) b :
  (x ← r; f x) = Ok b ↔ ∃ a, r = Ok a ∧ f a = Ok b.
Proof.
  destruct r as [a|e]; simpl.
  - split; [by exists a|]. by intros (a' & [= <-] & ?).
  - split; [done|]. by intros (a' & ? & _).
Qed.

Lemma pop_all_cons key keys d :
  pop_all (key :: keys) d = (data' ← pop key d; pop_all keys data').
Proof. reflexivity. Qed.

Lemma pop_all_inv keys d data :
  pop_all keys d = Ok data →
  data = foldl (λ acc key, delete key acc) d keys ∧
  ∀ key, key ∈ keys → is_Some (d !! key).
Proof.
  revert d. induction keys as [|key keys IH]; intros d.
  { intros [= <-]. split; [done|]. by intros key ?%elem_of_nil. }
  rewrite pop_all_cons, bind_Ok. intros (d' & Hpop & Hrest).
  unfold pop in Hpop. destruct (d !! key) as [v|] eqn:Hkey; [|done].
  injection Hpop as <-. apply IH in Hrest as [-> Hkeys].
  split; [done|]. intros key' [->|Hin]%elem_of_cons; [by rewrite Hkey|].
  destruct (Hkeys key' Hin) as [v' Hv']. exists v'.
  by apply lookup_delete_Some in Hv' as [_ ?].
Qed.

Lemma pop_all_Ok keys d :
  NoDup keys → (∀ key, key ∈ keys → is_Some (d !! key)) →
  pop_all keys d = Ok (foldl (λ acc key, delete key acc) d keys).
Proof.
  intros Hnd. revert d. induction Hnd as [|key keys Hkey Hnd IH]; intros d Hd.
  { done. }
  rewrite pop_all_cons. unfold pop.
  destruct (Hd key) as [v ->]; [apply list_elem_of_here|]. simpl.
  apply IH. intros key' Hin. destruct (Hd key') as [v' Hv'].
  { by apply list_elem_of_further. }
  exists v'. apply lookup_delete_Some. split; [|done]. by intros ->.
Qed.

Lemma pop_all_Err keys d key :
  key ∈ keys → d !! key = None → ∃ e, pop_all keys d = Err e.
Proof.
  intros Hin Hkey. destruct (pop_all keys d) as [data|e] eqn:Hpop; [|by exists e].
  apply pop_all_inv in Hpop as [_ Hkeys].
  destruct (Hkeys key Hin) as [v Hv]. congruence.
Qed.

Lemma strip_team_plain d : plain_team (strip_team d).
Proof.
  unfold plain_team, strip_team. repeat split.
  - do 2 (rewrite lookup_delete_ne by done). by rewrite lookup_delete_eq.
  - rewrite lookup_delete_ne by done. by rewrite lookup_delete_eq.
  - by rewrite lookup_delete_eq.
Qed.

Lemma strip_tim_plain d : plain_tim (strip_tim d).
Proof.
  unfold plain_tim, strip_tim. repeat split.
  - do 3 (rewrite lookup_delete_ne by done). by rewrite lookup_delete_eq.
  - do 2 (rewrite lookup_delete_ne by done). by rewrite lookup_delete_eq.
  - rewrite lookup_delete_ne by done. by rewrite lookup_delete_eq.
  - by rewrite lookup_delete_eq.
Qed.

Lemma strip_team_lookup d key :
  key ≠ "_id" → key ≠ "team_number" → key ≠ "username" →
  strip_team d !! key = d !! key.
Proof. intros. unfold strip_team. by rewrite !lookup_delete_ne. Qed.

Lemma strip_tim_lookup d key :
  key ≠ "_id" → key ≠ "match_number" → key ≠ "team_number" →
  key ≠ "username" → strip_tim d !! key = d !! key.
Proof. intros. unfold strip_tim. by rewrite !lookup_delete_ne. Qed.

(** Stripping depends on the data points only. *)
Lemma strip_team_same_fields d1 d2 :
  same_fields d1 d2 → strip_team d1 = strip_team d2.
Proof.
  intros Hsame. apply map_eq. intros key.
  destruct (strip_team_plain d1) as (H1 & H2 & H3).
  destruct (strip_team_plain d2) as (H4 & H5 & H6).
  destruct (decide (key = "_id")) as [->|?]; [congruence|].
  destruct (decide (key = "team_number")) as [->|?]; [congruence|].
  destruct (decide (key = "username")) as [->|?]; [congruence|].
  rewrite !strip_team_lookup by done. by apply Hsame.
Qed.

Lemma strip_tim_same_fields d1 d2 :
  same_fields d1 d2 → strip_tim d1 = strip_tim d2.
Proof.
  intros Hsame. apply map_eq. intros key.
  destruct (strip_tim_plain d1) as (H1 & H2 & H3 & H4).
  destruct (strip_tim_plain d2) as (H5 & H6 & H7 & H8).
  destruct (decide (key = "_id")) as [->|?]; [congruence|].
  destruct (decide (key = "match_number")) as [->|?]; [congruence|].
  destruct (decide (key = "team_number")) as [->|?]; [congruence|].
  destruct (decide (key = "username")) as [->|?]; [congruence|].
  rewrite !strip_tim_lookup by done. by apply Hsame.
Qed.

(** What the server keeps of a plain data-point map is the map itself. *)
Lemma strip_tag_team t u d : strip_team (tag_team t u d) = strip_team d.
Proof.
  apply map_eq. intros key.
  destruct (strip_team_plain (tag_team t u d)) as (H1 & H2 & H3).
  destruct (strip_team_plain d) as (H4 & H5 & H6).
  destruct (decide (key = "_id")) as [->|?]; [congruence|].
  destruct (decide (key = "team_number")) as [->|?]; [congruence|].
  destruct (decide (key = "username")) as [->|?]; [congruence|].
  rewrite !strip_team_lookup by done. by apply tag_team_lookup_other.
Qed.

Lemma strip_tag_tim m t u d : strip_tim (tag_tim m t u d) = strip_tim d.
Proof.
  apply map_eq. intros key.
  destruct (strip_tim_plain (tag_tim m t u d)) as (H1 & H2 & H3 & H4).
  destruct (strip_tim_plain d) as (H5 & H6 & H7 & H8).
  destruct (decide (key = "_id")) as [->|?]; [congruence|].
  destruct (decide (key = "match_number")) as [->|?]; [congruence|].
  destruct (decide (key = "team_number")) as [->|?]; [congruence|].
  destruct (decide (key = "username")) as [->|?]; [congruence|].
  rewrite !strip_tim_lookup by done. by apply tag_tim_lookup_other.
Qed.

Lemma strip_team_id d : plain_team d → strip_team d = d.
Proof.
  intros (H1 & H2 & H3). unfold strip_team.
  by rewrite (delete_id d "_id"), (delete_id d "team_number"), delete_id.
Qed.

Lemma strip_tim_id d : plain_tim d → strip_tim d = d.
Proof.
  intros (H1 & H2 & H3 & H4). unfold strip_tim.
  by rewrite (delete_id d "_id"), (delete_id d "match_number"),
    (delete_id d "team_number"), delete_id.
Qed.

(** *** The loop over team records *)

Lemma as_str_Ok v s : as_str v = Ok s ↔ v = VStr s.
Proof. destruct v; simpl; split; intros; by simplify_eq. Qed.

Lemma getitem_Ok d key v : getitem d key = Ok v ↔ d !! key = Some v.
Proof.
  unfold getitem. destruct (d !! key); split; intros; by simplify_eq.
Qed.

Lemma get_team_loop_cons d docs acc :
  get_team_loop (d :: docs) acc =
    (data ← pop_all ["_id"; "team_number"; "username"] d;
     v ← getitem d "team_number";
     team ← as_str v;
     get_team_loop docs (<[team := data]> acc)).
Proof. reflexivity. Qed.

Lemma get_team_loop_step d docs acc res :
  get_team_loop (d :: docs) acc = Ok res →
  ∃ t, d !! "team_number" = Some (VStr t) ∧ is_Some (d !! "_id") ∧
       is_Some (d !! "username") ∧
       get_team_loop docs (<[t := strip_team d]> acc) = Ok res.
Proof.
  rewrite get_team_loop_cons, bind_Ok.
  intros (data & [-> Hkeys]%pop_all_inv & Hrest).
  apply bind_Ok in Hrest as (v & Hv%getitem_Ok & Hrest).
  apply bind_Ok in Hrest as (t & ->%as_str_Ok & Hrest).
  exists t. repeat split; [done| | |done]; apply Hkeys; compute_done.
Qed.

Lemma get_team_loop_record d docs acc t :
  d !! "team_number" = Some (VStr t) → is_Some (d !! "_id") →
  is_Some (d !! "username") →
  get_team_loop (d :: docs) acc
    = get_team_loop docs (<[t := strip_team d]> acc).
Proof.
  intros Ht Hid Hu. rewrite get_team_loop_cons, pop_all_Ok.
  - unfold getitem. by rewrite Ht.
  - compute_done.
  - intros key. rewrite !elem_of_cons, elem_of_nil.
    intros [->|[->|[->|[]]]]; by rewrite ?Ht.
Qed.

(** Under each team, the data points of the last record of that team. *)
Lemma get_team_loop_lookup docs acc res t :
  get_team_loop docs acc = Ok res →
  res !! t = match last (List.filter (team_of t) docs) with
             | Some d => Some (strip_team d)
             | None => acc !! t
             end.
Proof.
  revert acc. induction docs as [|d docs IH]; intros acc.
  { by intros [= <-]. }
  intros (t0 & Ht0 & _ & _ & Hrest)%get_team_loop_step.
  rewrite (IH _ Hrest). simpl. unfold team_of at 2. rewrite Ht0.
  case_bool_decide as Ht; simplify_eq.
  - rewrite last_cons, lookup_insert_eq.
    by destruct (last (List.filter (team_of t) docs)).
  - rewrite lookup_insert_ne by congruence. done.
Qed.

Lemma get_team_loop_Ok docs acc :
  Forall team_record docs → ∃ res, get_team_loop docs acc = Ok res.
Proof.
  intros Hwf. revert acc. induction Hwf as [|d docs Hd _ IH]; intros acc.
  { by exists acc. }
  destruct Hd as (Hid & [t Ht] & [u Hu]).
  rewrite (get_team_loop_record d docs acc t) by by rewrite ?Hu.
  apply IH.
Qed.

Lemma get_team_loop_Err docs acc d :
  d ∈ docs → d !! "_id" = None ∨ d !! "team_number" = None →
  ∃ e, get_team_loop docs acc = Err e.
Proof.
  intros Hin Hd. revert acc. induction Hin as [d docs|d d' docs _ IH]; intros acc.
  - destruct (get_team_loop (d :: docs) acc) as [res|e] eqn:Hloop; [|by exists e].
    apply get_team_loop_step in Hloop as (t & Ht & [v Hv] & _).
    destruct Hd; congruence.
  - destruct (get_team_loop (d' :: docs) acc) as [res|e] eqn:Hloop; [|by exists e].
    apply get_team_loop_step in Hloop as (t & _ & _ & _ & Hrest).
    destruct (IH Hd (<[t := strip_team d']> acc)) as [e He]. congruence.
Qed.

Lemma get_team_loop_plain docs acc res :
  get_team_loop docs acc = Ok res →
  (∀ t d, acc !! t = Some d → plain_team d) →
  ∀ t d, res !! t = Some d → plain_team d.
Proof.
  intros Hloop Hacc t d. rewrite (get_team_loop_lookup _ _ _ t Hloop).
  destruct (last _) as [d'|]; [|by apply Hacc].
  intros [= <-]. apply strip_team_plain.
Qed.

(** *** The loop over match-team records *)

Lemma lookup2_tim_put m t data td m' t' :
  lookup2 (tim_put m t data td) m' t' =
    if decide (m = m' ∧ t = t') then Some data else lookup2 td m' t'.
Proof.
  unfold lookup2, tim_put. destruct (decide (m = m')) as [<-|Hm].
  - rewrite lookup_insert_eq. simpl. destruct (decide (t = t')) as [<-|Ht].
    + rewrite lookup_insert_eq. by rewrite decide_True.
    + rewrite lookup_insert_ne by done. rewrite decide_False by tauto.
      by destruct (td !! m).
  - rewrite lookup_insert_ne by done. by rewrite decide_False by tauto.
Qed.

Lemma lookup_tim_put_is_Some m t data td m' :
  is_Some (tim_put m t data td !! m') ↔ m = m' ∨ is_Some (td !! m').
Proof.
  unfold tim_put. destruct (decide (m = m')) as [<-|Hm].
  - rewrite lookup_insert_eq. split; [by left|by eauto].
  - rewrite lookup_insert_ne by done. split; [by right|by intros [|]].
Qed.

Lemma get_tim_loop_cons d docs acc :
  get_tim_loop (d :: docs) acc =
    (data ← pop_all ["_id"; "match_number"; "team_number"; "username"] d;
     vm ← getitem d "match_number";
     m ← as_str vm;
     vt ← getitem d "team_number";
     t ← as_str vt;
     get_tim_loop docs (tim_put m t data acc)).
Proof.
  cbn [get_tim_loop]. destruct (pop_all _ d) as [data|]; [|done]. simpl.
  destruct (getitem d "match_number") as [vm|]; [|done]. simpl.
  destruct (as_str vm) as [m|]; [|done]. simpl.
  destruct (getitem d "team_number") as [vt|]; [|done]. simpl.
  destruct (as_str vt) as [t|]; [|done]. simpl.
  f_equal. unfold tim_put. destruct (acc !! m) as [teams|] eqn:Hm.
  - by rewrite Hm.
  - by rewrite lookup_insert_eq, insert_insert_eq.
Qed.

Lemma get_tim_loop_step d docs acc res :
  get_tim_loop (d :: docs) acc = Ok res →
  ∃ m t, d !! "match_number" = Some (VStr m) ∧
         d !! "team_number" = Some (VStr t) ∧ is_Some (d !! "_id") ∧
         is_Some (d !! "username") ∧
         get_tim_loop docs (tim_put m t (strip_tim d) acc) = Ok res.
Proof.
  rewrite get_tim_loop_cons, bind_Ok.
  intros (data & [-> Hkeys]%pop_all_inv & Hrest).
  apply bind_Ok in Hrest as (vm & Hvm%getitem_Ok & Hrest).
  apply bind_Ok in Hrest as (m & ->%as_str_Ok & Hrest).
  apply bind_Ok in Hrest as (vt & Hvt%getitem_Ok & Hrest).
  apply bind_Ok in Hrest as (t & ->%as_str_Ok & Hrest).
  exists m, t. repeat split; [done|done| | |done]; apply Hkeys; compute_done.
Qed.

Lemma get_tim_loop_record d docs acc m t :
  d !! "match_number" = Some (VStr m) → d !! "team_number" = Some (VStr t) →
  is_Some (d !! "_id") → is_Some (d !! "username") →
  get_tim_loop (d :: docs) acc
    = get_tim_loop docs (tim_put m t (strip_tim d) acc).
Proof.
  intros Hm Ht Hid Hu. rewrite get_tim_loop_cons, pop_all_Ok.
  - unfold getitem. by rewrite Hm, Ht.
  - compute_done.
  - intros key. rewrite !elem_of_cons, elem_of_nil.
    intros [->|[->|[->|[->|[]]]]]; by rewrite ?Hm, ?Ht.
Qed.

(** Under each match and team, the data points of the last record of that
    match and team. *)
Lemma get_tim_loop_lookup2 docs acc res m t :
  get_tim_loop docs acc = Ok res →
  lookup2 res m t =
    match last (List.filter (λ d, match_of m d && team_of t d) docs) with
    | Some d => Some (strip_tim d)
    | None => lookup2 acc m t
    end.
Proof.
  revert acc. induction docs as [|d docs IH]; intros acc.
  { by intros [= <-]. }
  intros (m0 & t0 & Hm0 & Ht0 & _ & _ & Hrest)%get_tim_loop_step.
  rewrite (IH _ Hrest), lookup2_tim_put. simpl.
  unfold match_of at 2, team_of at 2. rewrite Hm0, Ht0.
  destruct (decide (m0 = m ∧ t0 = t)) as [[-> ->]|Hne].
  - rewrite !bool_decide_eq_true_2 by done. simpl. rewrite last_cons.
    by destruct (last (List.filter _ docs)).
  - destruct (decide (m0 = m)) as [->|Hm].
    + rewrite (bool_decide_eq_false_2 (Some (VStr t0) = _)), andb_false_r; [done|].
      intros [= ->]. tauto.
    + rewrite (bool_decide_eq_false_2 (Some (VStr m0) = _)); [done|].
      by intros [= ->].
Qed.

(** The matches of the result: those of the records. *)
Lemma get_tim_loop_matches docs acc res m :
  get_tim_loop docs acc = Ok res →
  is_Some (res !! m) ↔
  is_Some (acc !! m) ∨ ∃ d, d ∈ docs ∧ d !! "match_number" = Some (VStr m).
Proof.
  revert acc. induction docs as [|d docs IH]; intros acc.
  { intros [= <-]. split; [by left|]. intros [|(d & []%elem_of_nil & _)]. done. }
  intros (m0 & t0 & Hm0 & Ht0 & _ & _ & Hrest)%get_tim_loop_step.
  rewrite (IH _ Hrest), lookup_tim_put_is_Some. split.
  - intros [[->|?]|(d' & ? & ?)]; [|by left|].
    + right. exists d. split; [apply list_elem_of_here|done].
    + right. exists d'. split; [by apply list_elem_of_further|done].
  - intros [?|(d' & [->|?]%elem_of_cons & Hd')]; [by left; right| |].
    + left. left. congruence.
    + right. by exists d'.
Qed.

Lemma get_tim_loop_Ok docs acc :
  Forall tim_record docs → ∃ res, get_tim_loop docs acc = Ok res.
Proof.
  intros Hwf. revert acc. induction Hwf as [|d docs Hd _ IH]; intros acc.
  { by exists acc. }
  destruct Hd as (Hid & [m Hm] & [t Ht] & [u Hu]).
  rewrite (get_tim_loop_record d docs acc m t) by by rewrite ?Hu.
  apply IH.
Qed.

Lemma get_tim_loop_Err docs acc d :
  d ∈ docs →
  d !! "_id" = None ∨ d !! "match_number" = None ∨ d !! "team_number" = None →
  ∃ e, get_tim_loop docs acc = Err e.
Proof.
  intros Hin Hd. revert acc. induction Hin as [d docs|d d' docs _ IH]; intros acc.
  - destruct (get_tim_loop (d :: docs) acc) as [res|e] eqn:Hloop; [|by exists e].
    apply get_tim_loop_step in Hloop as (m & t & Hm & Ht & [v Hv] & _).
    destruct Hd as [|[|]]; congruence.
  - destruct (get_tim_loop (d' :: docs) acc) as [res|e] eqn:Hloop; [|by exists e].
    apply get_tim_loop_step in Hloop as (m & t & _ & _ & _ & _ & Hrest).
    destruct (IH Hd (tim_put m t (strip_tim d') acc)) as [e He]. congruence.
Qed.

Lemma get_tim_loop_plain docs acc res :
  get_tim_loop docs acc = Ok res →
  (∀ m t d, lookup2 acc m t = Some d → plain_tim d) →
  ∀ m t d, lookup2 res m t = Some d → plain_tim d.
Proof.
  intros Hloop Hacc m t d. rewrite (get_tim_loop_lookup2 _ _ _ m t Hloop).
  destruct (last _) as [d'|]; [|by apply Hacc].
  intros [= <-]. apply strip_tim_plain.
Qed.

End GetFacts.

(** ** Properties of the service *)

Section Properties.
Import Mongo StandStrategist.

Lemma update_outcome_Ok cl data u k :
  outcome (update cl data u k) = Ok () ↔
  (bulk_write (team_ops u (teamData data)) (ss_team (cl k))).2 = Ok () ∧
  (bulk_write (tim_ops u (timData data)) (ss_tim (cl k))).2 = Ok ().
Proof.
  rewrite update_outcome.
  destruct (bulk_write (team_ops _ _) _).2 as [[]|e]; [|by split; [|intros []]].
  split; [done|by intros []].
Qed.

Lemma update_ss_team cl data u k :
  ss_team (store (update cl data u k) k)
    = (bulk_write (team_ops u (teamData data)) (ss_team (cl k))).1.
Proof. rewrite update_store. by rewrite bool_decide_eq_true_2. Qed.

Lemma update_ss_tim cl data u k :
  ss_tim (store (update cl data u k) k)
    = if is_ok (bulk_write (team_ops u (teamData data)) (ss_team (cl k))).2
      then (bulk_write (tim_ops u (timData data)) (ss_tim (cl k))).1
      else ss_tim (cl k).
Proof. rewrite update_store. by rewrite bool_decide_eq_true_2. Qed.

Lemma update_other_db cl data u k ns :
  ns ≠ k → store (update cl data u k) ns = cl ns.
Proof. intros. rewrite update_store. by rewrite bool_decide_eq_false_2. Qed.

(** [get] reads the records of the user and nothing else. *)
Lemma get_ext cl cl' u k k' :
  find (user_filter u) (ss_team (cl k)) = find (user_filter u) (ss_team (cl' k')) →
  find (user_filter u) (ss_tim (cl k)) = find (user_filter u) (ss_tim (cl' k')) →
  get cl u k = get cl' u k'.
Proof.
  intros Hteam Htim. unfold get, client_find, get_collection.
  unfold user_filter in *. by rewrite Hteam, Htim.
Qed.

(** C7. [update] called with a view whose [teamData] and [timData] are both
    empty issues no write call to either collection, leaves the whole store
    as it is, and returns without raising. *)
Theorem update_empty_view (cl : client) (username event_key : string) :
  let r := update cl {| teamData := ∅; timData := ∅ |} username event_key in
  calls r = [] ∧ store r = cl ∧ outcome r = Ok ().
Proof.
  unfold update, team_ops, tim_ops. simpl. by rewrite !map_to_list_empty.
Qed.

(** C5. For usernames [u1 ≠ u2], what [get] returns for [u1] (a view or a
    failure, in any namespace) is the same after [update(_, u2)] as
    before: nothing written under one username shows in the view fetched
    for another. *)
Theorem update_isolated (cl : client) (data : StandStrategistData)
    (u1 u2 event_key ns : string) :
  u1 ≠ u2 →
  get (store (update cl data u2 event_key)) u1 ns = get cl u1 ns.
Proof.
  intros Hne. destruct (decide (ns = event_key)) as [->|Hns].
  - apply get_ext.
    + rewrite update_ss_team. apply bulk_write_find_other.
      * apply batch_sound, team_ops_batch.
      * apply Forall_forall. intros op (t & d & _ & ->)%team_ops_elem.
        by apply user_team_exclusive.
    + rewrite update_ss_tim. destruct (is_ok _); [|done].
      apply bulk_write_find_other.
      * apply batch_sound, tim_ops_batch.
      * apply Forall_forall.
        intros op (m & teams & t & d & _ & _ & ->)%tim_ops_elem.
        by apply user_tim_exclusive.
  - apply get_ext; by rewrite update_other_db.
Qed.

(** C4. Calling [update(V, U)] twice in succession leaves every database of
    the store exactly as one call does, whether the second call gets the
    view as sent the first time or the object the first call worked on. *)
Theorem update_idempotent (cl : client) (data : StandStrategistData)
    (username event_key ns : string) :
  let once := update cl data username event_key in
  store (update (store once) data username event_key) ns = store once ns ∧
  store (update (store once) (body once) username event_key) ns = store once ns.
Proof.
  simpl. split.
  - rewrite (update_store (store _)). case_bool_decide as Hns.
    + subst ns. rewrite update_ss_team, update_ss_tim.
      rewrite (update_store cl), bool_decide_eq_true_2 by done.
      rewrite !bulk_write_again by apply team_ops_batch.
      destruct (is_ok _); [|done].
      by rewrite !bulk_write_again by apply tim_ops_batch.
    + done.
  - rewrite (update_store (store _)). case_bool_decide as Hns.
    + subst ns. rewrite update_ss_team, update_ss_tim, update_body. simpl.
      rewrite team_ops_tagged.
      rewrite (update_store cl), bool_decide_eq_true_2 by done.
      rewrite !bulk_write_again by apply team_ops_batch.
      destruct (is_ok _); [|done].
      by rewrite tim_ops_tagged, !bulk_write_again by apply tim_ops_batch.
    + done.
Qed.

Lemma lookup2_Some td m t d :
  lookup2 td m t = Some d ↔ ∃ teams, td !! m = Some teams ∧ teams !! t = Some d.
Proof.
  unfold lookup2. destruct (td !! m) as [teams|]; simpl.
  - split; [by exists teams|]. by intros (? & [= <-] & ?).
  - split; [done|]. by intros (? & ? & _).
Qed.

Lemma lookup2_tagged u td m t :
  lookup2 (tagged_timData u td) m t = tag_tim m t u <$> lookup2 td m t.
Proof.
  unfold lookup2. rewrite tagged_timData_lookup.
  destruct (td !! m) as [teams|]; [|done]. simpl.
  rewrite map_lookup_imap. by destruct (teams !! t).
Qed.

(** C8. [update] works on its argument in place: when it returns, every
    inner map of [teamData] holds [team_number] and [username], bound to
    the enclosing team key and to the username argument, and every inner
    map of [timData] holds [match_number], [team_number] and [username],
    bound likewise; the other data points are as they were.  A view with a
    team map that did not already hold that username binding is therefore
    not left as the caller passed it. *)
Theorem update_tags_body (cl : client) (data : StandStrategistData)
    (username event_key : string) :
  outcome (update cl data username event_key) = Ok () →
  let data' := body (update cl data username event_key) in
  (∀ t d, teamData data !! t = Some d →
     ∃ d', teamData data' !! t = Some d' ∧
           d' !! "team_number" = Some (VStr t) ∧
           d' !! "username" = Some (VStr username) ∧
           ∀ key, key ≠ "team_number" → key ≠ "username" →
                  d' !! key = d !! key) ∧
  (∀ m t d, lookup2 (timData data) m t = Some d →
     ∃ d', lookup2 (timData data') m t = Some d' ∧
           d' !! "match_number" = Some (VStr m) ∧
           d' !! "team_number" = Some (VStr t) ∧
           d' !! "username" = Some (VStr username) ∧
           ∀ key, key ≠ "match_number" → key ≠ "team_number" →
                  key ≠ "username" → d' !! key = d !! key) ∧
  ((∃ t d, teamData data !! t = Some d ∧
           d !! "username" ≠ Some (VStr username)) → data' ≠ data).
Proof.
  intros [Hteam _]%update_outcome_Ok. simpl. rewrite update_body, Hteam. simpl.
  split; [|split].
  - intros t d Ht. exists (tag_team t username d).
    rewrite tagged_teamData_lookup, Ht.
    split; [done|]. split; [apply tag_team_lookup_team|].
    split; [apply tag_team_lookup_user|]. intros. by apply tag_team_lookup_other.
  - intros m t d Hd. exists (tag_tim m t username d).
    rewrite lookup2_tagged, Hd.
    split; [done|]. split; [apply tag_tim_lookup_match|].
    split; [apply tag_tim_lookup_team|].
    split; [apply tag_tim_lookup_user|]. intros. by apply tag_tim_lookup_other.
  - intros (t & d & Ht & Hd) Heq. apply Hd.
    apply (f_equal (λ v, teamData v !! t)) in Heq. simpl in Heq.
    rewrite tagged_teamData_lookup, Ht in Heq. injection Heq as <-.
    apply tag_team_lookup_user.
Qed.

(** C3. The identifying fields of every record [update] writes come from
    the position in the view and from the username argument: each operation
    of each batch filters on, and writes, the team key (and match key) it
    was built under and the username, whatever the data-point map held
    under [team_number], [match_number] or [username]; and when the call
    returns, the record stored for each key carries exactly these values
    next to the other data points supplied. *)
Theorem update_identifying_fields (cl : client) (data : StandStrategistData)
    (username event_key : string) :
  let r := update cl data username event_key in
  (∀ name ops op, (name, ops) ∈ calls r → op ∈ ops →
     match name with
     | SS_TEAM =>
         ∃ t d, teamData data !! t = Some d ∧
                filter op = [("team_number", VStr t); ("username", VStr username)] ∧
                replacement op !! "team_number" = Some (VStr t) ∧
                replacement op !! "username" = Some (VStr username) ∧
                ∀ key, key ≠ "team_number" → key ≠ "username" →
                       replacement op !! key = d !! key
     | SS_TIM =>
         ∃ m t d, lookup2 (timData data) m t = Some d ∧
                  filter op = [("match_number", VStr m); ("team_number", VStr t);
                               ("username", VStr username)] ∧
                  replacement op !! "match_number" = Some (VStr m) ∧
                  replacement op !! "team_number" = Some (VStr t) ∧
                  replacement op !! "username" = Some (VStr username) ∧
                  ∀ key, key ≠ "match_number" → key ≠ "team_number" →
                         key ≠ "username" → replacement op !! key = d !! key
     end) ∧
  (outcome r = Ok () →
     (∀ t d, teamData data !! t = Some d →
        ∃ record,
          head (find [("team_number", VStr t); ("username", VStr username)]
                     (ss_team (store r event_key))) = Some record ∧
          record !! "team_number" = Some (VStr t) ∧
          record !! "username" = Some (VStr username) ∧
          ∀ key, key ≠ "_id" → key ≠ "team_number" → key ≠ "username" →
                 record !! key = d !! key) ∧
     (∀ m t d, lookup2 (timData data) m t = Some d →
        ∃ record,
          head (find [("match_number", VStr m); ("team_number", VStr t);
                      ("username", VStr username)]
                     (ss_tim (store r event_key))) = Some record ∧
          record !! "match_number" = Some (VStr m) ∧
          record !! "team_number" = Some (VStr t) ∧
          record !! "username" = Some (VStr username) ∧
          ∀ key, key ≠ "_id" → key ≠ "match_number" → key ≠ "team_number" →
                 key ≠ "username" → record !! key = d !! key)).
Proof.
  simpl. split.
  - intros name ops op Hcall Hop. rewrite update_calls in Hcall.
    apply elem_of_app in Hcall as [Hcall|Hcall].
    + destruct (team_ops username (teamData data)) as [|op0 ops0] eqn:Hops;
        [by apply elem_of_nil in Hcall|].
      apply list_elem_of_singleton in Hcall. injection Hcall as -> ->.
      rewrite <- Hops in Hop. apply team_ops_elem in Hop as (t & d & Ht & ->).
      exists t, d. simpl. split; [done|]. split; [done|].
      split; [apply tag_team_lookup_team|].
      split; [apply tag_team_lookup_user|].
      intros. by apply tag_team_lookup_other.
    + destruct (is_ok _); [|by apply elem_of_nil in Hcall].
      destruct (tim_ops username (timData data)) as [|op0 ops0] eqn:Hops;
        [by apply elem_of_nil in Hcall|].
      apply list_elem_of_singleton in Hcall. injection Hcall as -> ->.
      rewrite <- Hops in Hop.
      apply tim_ops_elem in Hop as (m & teams & t & d & Hm & Ht & ->).
      exists m, t, d. simpl. split; [apply lookup2_Some; eauto|].
      split; [done|]. split; [apply tag_tim_lookup_match|].
      split; [apply tag_tim_lookup_team|].
      split; [apply tag_tim_lookup_user|].
      intros. by apply tag_tim_lookup_other.
  - intros [Hteam Htim]%update_outcome_Ok. split.
    + intros t d Ht. rewrite update_ss_team.
      destruct (bulk_write_find_self (team_ops username (teamData data))
        (mkReplaceOne (team_filter t username) (tag_team t username d) true)
        (ss_team (cl event_key)))
        as (new & Hfind & Hsame & _); [apply team_ops_batch| |done|].
      { apply team_ops_elem. by exists t, d. }
      simpl in *. exists new. unfold team_filter in Hfind. rewrite Hfind.
      split; [done|]. rewrite !Hsame by done.
      split; [apply tag_team_lookup_team|].
      split; [apply tag_team_lookup_user|].
      intros. rewrite Hsame by done. by apply tag_team_lookup_other.
    + intros m t d (teams & Hm & Ht)%lookup2_Some. rewrite update_ss_tim, Hteam.
      simpl.
      destruct (bulk_write_find_self (tim_ops username (timData data))
        (mkReplaceOne (tim_filter m t username) (tag_tim m t username d) true)
        (ss_tim (cl event_key)))
        as (new & Hfind & Hsame & _); [apply tim_ops_batch| |done|].
      { apply tim_ops_elem. by exists m, teams, t, d. }
      simpl in *. exists new. unfold tim_filter in Hfind. rewrite Hfind.
      split; [done|]. rewrite !Hsame by done.
      split; [apply tag_tim_lookup_match|].
      split; [apply tag_tim_lookup_team|].
      split; [apply tag_tim_lookup_user|].
      intros. rewrite Hsame by done. by apply tag_tim_lookup_other.
Qed.

Lemma get_Ok cl u k view :
  get cl u k = Ok view ↔
  get_team_loop (find (user_filter u) (ss_team (cl k))) ∅ = Ok (teamData view) ∧
  get_tim_loop (find (user_filter u) (ss_tim (cl k))) ∅ = Ok (timData view).
Proof.
  unfold get, client_find, get_collection, user_filter.
  rewrite bind_Ok. split.
  - intros (td & Htd & (tm & Htm & [= <-])%bind_Ok). done.
  - intros [Htd Htm]. exists (teamData view). split; [done|].
    apply bind_Ok. exists (timData view). split; [done|]. by destruct view.
Qed.

Lemma get_Err_team cl u k e :
  get_team_loop (find (user_filter u) (ss_team (cl k))) ∅ = Err e →
  get cl u k = Err e.
Proof.
  unfold get, client_find, get_collection, user_filter. by intros ->.
Qed.

Lemma get_Err_tim cl u k e :
  get_tim_loop (find (user_filter u) (ss_tim (cl k))) ∅ = Err e →
  ∃ e', get cl u k = Err e'.
Proof.
  unfold get, client_find, get_collection, user_filter. intros ->.
  destruct (get_team_loop _ ∅) as [td|e']; simpl; eauto.
Qed.

Lemma find_Forall (P : doc → Prop) q c : Forall P c → Forall P (find q c).
Proof.
  rewrite !Forall_forall. intros Hc d [Hd _]%find_elem_of. by apply Hc.
Qed.

(** *** The records [update] writes are well formed *)

Lemma team_record_same_fields t u d new :
  same_fields new (tag_team t u d) → is_Some (new !! "_id") → team_record new.
Proof.
  intros Hsame Hid. split; [done|]. rewrite !Hsame by done.
  rewrite tag_team_lookup_team, tag_team_lookup_user. eauto.
Qed.

Lemma tim_record_same_fields m t u d new :
  same_fields new (tag_tim m t u d) → is_Some (new !! "_id") → tim_record new.
Proof.
  intros Hsame Hid. split; [done|]. rewrite !Hsame by done.
  rewrite tag_tim_lookup_match, tag_tim_lookup_team, tag_tim_lookup_user.
  repeat split; eauto.
Qed.

Lemma team_ops_well_formed u td c :
  Forall team_record c → Forall team_record (bulk_write (team_ops u td) c).1.
Proof.
  apply bulk_write_Forall; [apply batch_sound, team_ops_batch| |].
  - intros op old new (t & d & _ & ->)%team_ops_elem (Hid & _) Hnew. simpl in *.
    eapply team_record_same_fields; [by eapply replace_doc_same_fields|].
    by rewrite (replace_doc_lookup_id _ _ _ Hnew).
  - intros op c' new (t & d & _ & ->)%team_ops_elem Hnew. simpl in *.
    eapply team_record_same_fields; [by eapply new_doc_same_fields|].
    by eapply new_doc_has_id.
Qed.

Lemma tim_ops_well_formed u td c :
  Forall tim_record c → Forall tim_record (bulk_write (tim_ops u td) c).1.
Proof.
  apply bulk_write_Forall; [apply batch_sound, tim_ops_batch| |].
  - intros op old new (m & teams & t & d & _ & _ & ->)%tim_ops_elem (Hid & _) Hnew.
    simpl in *.
    eapply tim_record_same_fields; [by eapply replace_doc_same_fields|].
    by rewrite (replace_doc_lookup_id _ _ _ Hnew).
  - intros op c' new (m & teams & t & d & _ & _ & ->)%tim_ops_elem Hnew.
    simpl in *.
    eapply tim_record_same_fields; [by eapply new_doc_same_fields|].
    by eapply new_doc_has_id.
Qed.

Lemma update_well_formed cl data u k ns :
  well_formed (cl ns) → well_formed (store (update cl data u k) ns).
Proof.
  intros [Hteam Htim]. rewrite update_store. case_bool_decide as Hns; [|done].
  subst ns. split; simpl.
  - by apply team_ops_well_formed.
  - destruct (is_ok _); [|done]. by apply tim_ops_well_formed.
Qed.

Lemma created_well_formed cl ns : created_by_update cl → well_formed (cl ns).
Proof.
  induction 1 as [|cl data u k _ IH].
  - split; constructor.
  - by apply update_well_formed.
Qed.

(** *** At most one record per key *)

Lemma team_ops_keyed u td c t u' :
  (length (find (team_filter t u') c) ≤ 1)%nat →
  (length (find (team_filter t u') (bulk_write (team_ops u td) c).1) ≤ 1)%nat.
Proof.
  apply bulk_write_unique; [apply batch_sound, team_ops_batch|].
  apply Forall_forall. intros op (t0 & d & _ & ->)%team_ops_elem. simpl.
  destruct (decide ((t, u') = (t0, u))) as [[= -> ->]|Hne]; [by left|].
  right. by apply team_filter_exclusive.
Qed.

Lemma tim_ops_keyed u td c m t u' :
  (length (find (tim_filter m t u') c) ≤ 1)%nat →
  (length (find (tim_filter m t u') (bulk_write (tim_ops u td) c).1) ≤ 1)%nat.
Proof.
  apply bulk_write_unique; [apply batch_sound, tim_ops_batch|].
  apply Forall_forall.
  intros op (m0 & teams & t0 & d & _ & _ & ->)%tim_ops_elem. simpl.
  destruct (decide ((m, t, u') = (m0, t0, u))) as [[= -> -> ->]|Hne]; [by left|].
  right. by apply tim_filter_exclusive.
Qed.

Lemma update_keyed cl data u k ns :
  keyed (cl ns) → keyed (store (update cl data u k) ns).
Proof.
  intros [Hteam Htim]. rewrite update_store. case_bool_decide as Hns; [|done].
  subst ns. split; simpl.
  - intros. by apply team_ops_keyed.
  - intros. destruct (is_ok _); [|done]. by apply tim_ops_keyed.
Qed.

(** The stores [update] builds keep the invariant of the data model. *)
Lemma created_keyed cl ns : created_by_update cl → keyed (cl ns).
Proof.
  induction 1 as [|cl data u k _ IH].
  - split; intros; simpl; lia.
  - by apply update_keyed.
Qed.

Lemma get_well_formed cl u k : well_formed (cl k) → ∃ view, get cl u k = Ok view.
Proof.
  intros [Hteam Htim].
  destruct (get_team_loop_Ok (find (user_filter u) (ss_team (cl k))) ∅)
    as [td Htd]; [by apply find_Forall|].
  destruct (get_tim_loop_Ok (find (user_filter u) (ss_tim (cl k))) ∅)
    as [tm Htm]; [by apply find_Forall|].
  exists {| teamData := td; timData := tm |}. by apply get_Ok.
Qed.

(** C9. No data-point map of a view [get] returns holds [_id],
    [team_number] or [username] (in [teamData]), or [_id], [match_number],
    [team_number] or [username] (in [timData]), whatever the store holds;
    so a view in which some data-point map uses one of these names is
    never what [get] returns after it was written with [update]. *)
Theorem get_strips_identifying_names (cl : client) (username event_key : string) :
  (∀ view, get cl username event_key = Ok view →
     (∀ t d, teamData view !! t = Some d →
        d !! "_id" = None ∧ d !! "team_number" = None ∧
        d !! "username" = None) ∧
     (∀ m t d, lookup2 (timData view) m t = Some d →
        d !! "_id" = None ∧ d !! "match_number" = None ∧
        d !! "team_number" = None ∧ d !! "username" = None)) ∧
  (∀ data, uses_identifying_name data →
     get (store (update cl data username event_key)) username event_key
       ≠ Ok data).
Proof.
  assert (∀ cl' view, get cl' username event_key = Ok view →
     (∀ t d, teamData view !! t = Some d → plain_team d) ∧
     (∀ m t d, lookup2 (timData view) m t = Some d → plain_tim d)) as Hplain.
  { intros cl' view [Hteam Htim]%get_Ok. split.
    - eapply get_team_loop_plain; [done|]. intros t d. by rewrite lookup_empty.
    - eapply get_tim_loop_plain; [done|]. intros m t d.
      unfold lookup2. by rewrite lookup_empty. }
  split; [apply Hplain|].
  intros data Huses Hget. apply Hplain in Hget as [Hteam Htim].
  destruct Huses as [(t & d & key & Hd & Hkey & [v Hv])
                    |(m & t & d & key & Hd & Hkey & [v Hv])].
  - destruct (Hteam t d Hd) as (H1 & H2 & H3).
    rewrite !elem_of_cons, elem_of_nil in Hkey.
    destruct Hkey as [->|[->|[->|[]]]]; congruence.
  - destruct (Htim m t d Hd) as (H1 & H2 & H3 & H4).
    rewrite !elem_of_cons, elem_of_nil in Hkey.
    destruct Hkey as [->|[->|[->|[->|[]]]]]; congruence.
Qed.

(** C10. [get] pops the identifying fields without a guard: it raises,
    rather than return a view, as soon as a team record of the user lacks
    [_id] or [team_number], or a match-team record of the user lacks [_id],
    [match_number] or [team_number]; in a store that calls of [update]
    built from nothing it always returns a view. *)
Theorem get_unguarded_pop (cl : client) (username event_key : string) :
  ((∃ d, d ∈ ss_team (cl event_key) ∧
         d !! "username" = Some (VStr username) ∧
         (d !! "_id" = None ∨ d !! "team_number" = None)) →
   ∃ e, get cl username event_key = Err e) ∧
  ((∃ d, d ∈ ss_tim (cl event_key) ∧
         d !! "username" = Some (VStr username) ∧
         (d !! "_id" = None ∨ d !! "match_number" = None ∨
          d !! "team_number" = None)) →
   ∃ e, get cl username event_key = Err e) ∧
  (created_by_update cl → ∃ view, get cl username event_key = Ok view).
Proof.
  split; [|split].
  - intros (d & Hin & Hu & Hd).
    destruct (get_team_loop_Err (find (user_filter username)
                (ss_team (cl event_key))) ∅ d) as [e He]; [|done|].
    { apply find_elem_of. split; [done|]. by apply matches_user_filter. }
    exists e. by apply get_Err_team.
  - intros (d & Hin & Hu & Hd).
    destruct (get_tim_loop_Err (find (user_filter username)
                (ss_tim (cl event_key))) ∅ d) as [e He]; [|done|].
    { apply find_elem_of. split; [done|]. by apply matches_user_filter. }
    by eapply get_Err_tim.
  - intros Hcl. by apply get_well_formed, created_well_formed.
Qed.

(** *** Reading back what was written *)

Lemma matches_team_user t u d :
  matches (team_filter t u) d = team_of t d && matches (user_filter u) d.
Proof. reflexivity. Qed.

Lemma matches_tim_user m t u d :
  matches (tim_filter m t u) d
    = (match_of m d && team_of t d) && matches (user_filter u) d.
Proof. unfold matches. simpl. by rewrite andb_assoc. Qed.

Lemma filter_find (f : doc → bool) q q' c :
  (∀ d, matches q' d = f d && matches q d) →
  List.filter f (find q c) = find q' c.
Proof.
  intros Hq. induction c as [|d c IH]; [done|].
  rewrite !find_cons, Hq. destruct (matches q d); simpl.
  - rewrite andb_true_r. destruct (f d); by rewrite IH.
  - by rewrite andb_false_r.
Qed.

Lemma filter_team_of t u c :
  List.filter (team_of t) (find (user_filter u) c) = find (team_filter t u) c.
Proof. apply filter_find, matches_team_user. Qed.

Lemma filter_match_team_of m t u c :
  List.filter (λ d, match_of m d && team_of t d) (find (user_filter u) c)
    = find (tim_filter m t u) c.
Proof. apply filter_find, matches_tim_user. Qed.

Lemma team_find_written u td c t d :
  (bulk_write (team_ops u td) c).2 = Ok () → td !! t = Some d →
  ∃ new, find (team_filter t u) (bulk_write (team_ops u td) c).1
           = new :: tail (find (team_filter t u) c) ∧
         same_fields new (tag_team t u d).
Proof.
  intros Hok Ht.
  destruct (bulk_write_find_self (team_ops u td)
    (mkReplaceOne (team_filter t u) (tag_team t u d) true) c)
    as (new & Hfind & Hsame & _); [apply team_ops_batch| |done|by exists new].
  apply team_ops_elem. by exists t, d.
Qed.

Lemma team_find_untouched u td c t :
  td !! t = None →
  find (team_filter t u) (bulk_write (team_ops u td) c).1
    = find (team_filter t u) c.
Proof.
  intros Ht. apply bulk_write_find_other; [apply batch_sound, team_ops_batch|].
  apply Forall_forall. intros op (t' & d & Ht' & ->)%team_ops_elem. simpl.
  apply team_filter_exclusive. intros [= -> ]. congruence.
Qed.

Lemma tim_find_written u td c m t d :
  (bulk_write (tim_ops u td) c).2 = Ok () → lookup2 td m t = Some d →
  ∃ new, find (tim_filter m t u) (bulk_write (tim_ops u td) c).1
           = new :: tail (find (tim_filter m t u) c) ∧
         same_fields new (tag_tim m t u d).
Proof.
  intros Hok (teams & Hm & Ht)%lookup2_Some.
  destruct (bulk_write_find_self (tim_ops u td)
    (mkReplaceOne (tim_filter m t u) (tag_tim m t u d) true) c)
    as (new & Hfind & Hsame & _); [apply tim_ops_batch| |done|by exists new].
  apply tim_ops_elem. by exists m, teams, t, d.
Qed.

Lemma tim_find_untouched u td c m t :
  lookup2 td m t = None →
  find (tim_filter m t u) (bulk_write (tim_ops u td) c).1
    = find (tim_filter m t u) c.
Proof.
  intros Hmt. apply bulk_write_find_other; [apply batch_sound, tim_ops_batch|].
  apply Forall_forall.
  intros op (m' & teams & t' & d & Hm' & Ht' & ->)%tim_ops_elem. simpl.
  apply tim_filter_exclusive. intros [= -> ->].
  assert (lookup2 td m' t' = Some d) by (apply lookup2_Some; eauto).
  congruence.
Qed.

Lemma tail_short {A} (l : list A) : (length l ≤ 1)%nat → tail l = [].
Proof. destruct l as [|x [|y l]]; simpl; [done..|lia]. Qed.

Lemma get_team_lookup cl u k view t :
  get cl u k = Ok view →
  teamData view !! t
    = strip_team <$> last (find (team_filter t u) (ss_team (cl k))).
Proof.
  intros [Hteam _]%get_Ok.
  rewrite (get_team_loop_lookup _ _ _ t Hteam), filter_team_of, lookup_empty.
  by destruct (last _).
Qed.

Lemma get_tim_lookup2 cl u k view m t :
  get cl u k = Ok view →
  lookup2 (timData view) m t
    = strip_tim <$> last (find (tim_filter m t u) (ss_tim (cl k))).
Proof.
  intros [_ Htim]%get_Ok.
  rewrite (get_tim_loop_lookup2 _ _ _ m t Htim), filter_match_team_of.
  unfold lookup2 at 1. rewrite lookup_empty. by destruct (last _).
Qed.

Lemma get_tim_loop_fields docs acc res d :
  get_tim_loop docs acc = Ok res → d ∈ docs →
  ∃ m t, d !! "match_number" = Some (VStr m) ∧
         d !! "team_number" = Some (VStr t).
Proof.
  intros Hloop Hin. revert acc Hloop.
  induction Hin as [d docs|d d' docs _ IH]; intros acc.
  - intros (m & t & Hm & Ht & _)%get_tim_loop_step. eauto.
  - intros (m & t & _ & _ & _ & _ & Hrest)%get_tim_loop_step. eauto.
Qed.

(** No match of a view [get] returns is without a team. *)
Lemma get_no_empty_match cl u k view m :
  get cl u k = Ok view → is_Some (timData view !! m) →
  ∃ t, is_Some (lookup2 (timData view) m t).
Proof.
  intros [_ Htim]%get_Ok Hm.
  apply (get_tim_loop_matches _ _ _ m Htim) in Hm as [Hm|(d & Hd & Hdm)].
  { rewrite lookup_empty in Hm. by destruct Hm. }
  destruct (get_tim_loop_fields _ _ _ d Htim Hd) as (m' & t & Hm' & Ht).
  exists t. rewrite (get_tim_loop_lookup2 _ _ _ m t Htim).
  destruct (last _) as [d'|] eqn:Hlast; [done|].
  apply last_None in Hlast.
  assert (d ∈ List.filter (λ d, match_of m d && team_of t d)
                (find (user_filter u) (ss_tim (cl k)))) as Hin.
  { apply list_elem_of_In, List.filter_In. split; [by apply list_elem_of_In|].
    unfold match_of, team_of. by rewrite !bool_decide_eq_true_2. }
  rewrite Hlast in Hin. by apply elem_of_nil in Hin.
Qed.

(** C2 (as amended).  In a store whose records have the shape [update]
    writes and which holds at most one team record for (team, username),
    after a call of [update] that returns and whose [teamData] has the
    team, [get] returns for that team the data-point map the caller
    supplied, less the names [_id], [team_number] and [username]: what the
    record held before is gone, nothing is merged; and it is exactly the
    supplied map when that uses none of the three names. *)
Theorem update_replaces_data_points (cl : client) (data : StandStrategistData)
    (username event_key t : string) (d : doc) :
  well_formed (cl event_key) →
  (length (find (team_filter t username) (ss_team (cl event_key))) ≤ 1)%nat →
  teamData data !! t = Some d →
  outcome (update cl data username event_key) = Ok () →
  ∃ view,
    get (store (update cl data username event_key)) username event_key = Ok view ∧
    teamData view !! t
      = Some (delete "username" (delete "team_number" (delete "_id" d))) ∧
    (d !! "_id" = None → d !! "team_number" = None → d !! "username" = None →
     teamData view !! t = Some d).
Proof.
  intros Hwf Hone Ht [Hteam _]%update_outcome_Ok.
  destruct (get_well_formed (store (update cl data username event_key))
              username event_key) as [view Hview].
  { by apply update_well_formed. }
  exists view. split; [done|].
  assert (teamData view !! t = Some (strip_team d)) as Hlookup.
  { rewrite (get_team_lookup _ _ _ _ t Hview), update_ss_team.
    destruct (team_find_written username (teamData data)
                (ss_team (cl event_key)) t d) as (new & -> & Hsame); [done..|].
    rewrite tail_short by done. simpl.
    by rewrite (strip_team_same_fields _ _ Hsame), strip_tag_team. }
  split; [done|]. intros H1 H2 H3. by rewrite Hlookup, strip_team_id.
Qed.

Lemma lookup2_ext (a b : gmap string (gmap string doc)) :
  (∀ m, is_Some (a !! m) ↔ is_Some (b !! m)) →
  (∀ m t, lookup2 a m t = lookup2 b m t) → a = b.
Proof.
  intros Hdom Hlook. apply map_eq. intros m.
  specialize (Hdom m). pose proof (Hlook m) as Hm. unfold lookup2 in Hm.
  destruct (a !! m) as [ta|], (b !! m) as [tb|]; simpl in Hm.
  - f_equal. by apply map_eq.
  - by destruct (proj1 Hdom) as [? [=]].
  - by destruct (proj2 Hdom) as [? [=]].
  - done.
Qed.

(** C1 (as amended).  In a store whose records have the shape [update]
    writes, with at most one record per key, and where every record of the
    user is for a team, or a match and team, of the view: for a view whose
    data-point maps use none of the identifying names and in which no match
    is without a team, after a call of [update] that returns [get] returns
    a view equal to the one written. *)
Theorem update_then_get (cl : client) (data : StandStrategistData)
    (username event_key : string) :
  well_formed (cl event_key) →
  keyed (cl event_key) →
  covered data username (cl event_key) →
  plain_view data →
  outcome (update cl data username event_key) = Ok () →
  get (store (update cl data username event_key)) username event_key = Ok data.
Proof.
  intros Hwf [Hkteam Hktim] [Hcteam Hctim] Hplain Hok.
  apply update_outcome_Ok in Hok as [Hokteam Hoktim].
  pose proof (update_well_formed cl data username event_key event_key Hwf)
    as Hwf'.
  destruct (get_well_formed _ username event_key Hwf') as [view Hview].
  rewrite Hview. f_equal. destruct Hplain as [Hpteam Hptim Hpmatch].
  assert (∀ m t, lookup2 (timData view) m t = lookup2 (timData data) m t)
    as Hlook2.
  { intros m t. rewrite (get_tim_lookup2 _ _ _ _ m t Hview).
    rewrite update_ss_tim, Hokteam. simpl.
    destruct (lookup2 (timData data) m t) as [d|] eqn:Hd.
    - destruct (tim_find_written username (timData data)
                  (ss_tim (cl event_key)) m t d) as (new & -> & Hsame);
        [done..|].
      rewrite tail_short by done. simpl.
      rewrite (strip_tim_same_fields _ _ Hsame), strip_tag_tim, strip_tim_id;
        [done|].
      apply lookup2_Some in Hd as (teams & Hm & Ht). by eapply Hptim.
    - rewrite tim_find_untouched by done.
      destruct (find (tim_filter m t username) (ss_tim (cl event_key)))
        as [|x l] eqn:Hfind; [done|].
      destruct (Hctim m t) as [d' Hd']; [by rewrite Hfind|congruence]. }
  assert (∀ t, teamData view !! t = teamData data !! t) as Hlook1.
  { intros t. rewrite (get_team_lookup _ _ _ _ t Hview), update_ss_team.
    destruct (teamData data !! t) as [d|] eqn:Hd.
    - destruct (team_find_written username (teamData data)
                  (ss_team (cl event_key)) t d) as (new & -> & Hsame);
        [done..|].
      rewrite tail_short by done. simpl.
      rewrite (strip_team_same_fields _ _ Hsame), strip_tag_team, strip_team_id;
        [done|]. by eapply Hpteam.
    - rewrite team_find_untouched by done.
      destruct (find (team_filter t username) (ss_team (cl event_key)))
        as [|x l] eqn:Hfind; [done|].
      destruct (Hcteam t) as [d' Hd']; [by rewrite Hfind|congruence]. }
  assert (∀ m, is_Some (timData view !! m) ↔ is_Some (timData data !! m))
    as Hdom.
  { intros m. split.
    - intros Hm. destruct (get_no_empty_match _ _ _ _ m Hview Hm) as [t [d Hd]].
      rewrite Hlook2 in Hd. apply lookup2_Some in Hd as (teams & -> & _).
      by eexists.
    - intros [teams Hteams]. pose proof (Hpmatch m teams Hteams) as Hne.
      apply map_choose in Hne as (t & d & Ht).
      assert (lookup2 (timData data) m t = Some d) as Hdt
        by (apply lookup2_Some; eauto).
      rewrite <- Hlook2 in Hdt. apply lookup2_Some in Hdt as (teams' & -> & _).
      by eexists. }
  destruct view as [vteam vtim], data as [dteam dtim]. simpl in *. f_equal.
  - by apply map_eq.
  - by apply lookup2_ext.
Qed.

(** *** The usernames *)

Lemma find_all c : find [] c = c.
Proof. induction c as [|d c IH]; [done|]. by rewrite find_cons, IH. Qed.

Lemma users_loop_cons d docs acc :
  users_loop (d :: docs) acc =
    (v ← getitem d "username"; u ← as_str v; users_loop docs ({[u]} ∪ acc)).
Proof. reflexivity. Qed.

Lemma users_loop_spec docs acc res :
  users_loop docs acc = Ok res →
  ∀ u, u ∈ res ↔ u ∈ acc ∨ ∃ d, d ∈ docs ∧ d !! "username" = Some (VStr u).
Proof.
  revert acc. induction docs as [|d docs IH]; intros acc.
  { intros [= <-] u. split; [by left|]. intros [|(d & []%elem_of_nil & _)]. done. }
  rewrite users_loop_cons, bind_Ok. intros (v & Hv%getitem_Ok & Hrest).
  apply bind_Ok in Hrest as (u0 & ->%as_str_Ok & Hrest).
  intros u. rewrite (IH _ Hrest), elem_of_union, elem_of_singleton. split.
  - intros [[->|?]|(d' & ? & ?)]; [|by left|].
    + right. exists d. split; [apply list_elem_of_here|done].
    + right. exists d'. split; [by apply list_elem_of_further|done].
  - intros [?|(d' & [->|?]%elem_of_cons & Hd')]; [by left; right| |].
    + left. left. congruence.
    + right. by exists d'.
Qed.

Lemma users_loop_Ok docs acc :
  Forall (λ d, ∃ u, d !! "username" = Some (VStr u)) docs →
  ∃ res, users_loop docs acc = Ok res.
Proof.
  intros Hwf. revert acc. induction Hwf as [|d docs [u Hu] _ IH]; intros acc.
  { by exists acc. }
  rewrite users_loop_cons. unfold getitem. rewrite Hu. simpl. apply IH.
Qed.

Lemma users_Ok cl k l :
  users cl k = Ok l ↔
  ∃ s1 s2, users_loop (ss_team (cl k)) ∅ = Ok s1 ∧
           users_loop (ss_tim (cl k)) s1 = Ok s2 ∧ l = elements s2.
Proof.
  unfold users, client_find, get_collection. rewrite !find_all, bind_Ok. split.
  - intros (s1 & Hs1 & (s2 & Hs2 & [= <-])%bind_Ok). by exists s1, s2.
  - intros (s1 & s2 & Hs1 & Hs2 & ->). exists s1. split; [done|].
    apply bind_Ok. by exists s2.
Qed.

Lemma users_elem_of cl k l u :
  users cl k = Ok l →
  u ∈ l ↔ ∃ d, (d ∈ ss_team (cl k) ∨ d ∈ ss_tim (cl k)) ∧
               d !! "username" = Some (VStr u).
Proof.
  intros (s1 & s2 & Hs1 & Hs2 & ->)%users_Ok.
  rewrite elem_of_elements, (users_loop_spec _ _ _ Hs2), (users_loop_spec _ _ _ Hs1).
  rewrite elem_of_empty. split.
  - intros [[[]|(d & ? & ?)]|(d & ? & ?)]; exists d; eauto.
  - intros (d & [?|?] & ?); [left; right|right]; by exists d.
Qed.

Lemma users_well_formed cl k : well_formed (cl k) → ∃ l, users cl k = Ok l.
Proof.
  intros [Hteam Htim].
  destruct (users_loop_Ok (ss_team (cl k)) ∅) as [s1 Hs1].
  { eapply Forall_impl; [done|]. by intros d (_ & _ & ?). }
  destruct (users_loop_Ok (ss_tim (cl k)) s1) as [s2 Hs2].
  { eapply Forall_impl; [done|]. by intros d (_ & _ & _ & ?). }
  exists (elements s2). apply users_Ok. by exists s1, s2.
Qed.

(** A view with a data-point map leaves a record of the user. *)
Lemma update_leaves_record cl data u k :
  has_data data → outcome (update cl data u k) = Ok () →
  ∃ d, (d ∈ ss_team (store (update cl data u k) k) ∨
        d ∈ ss_tim (store (update cl data u k) k)) ∧
       d !! "username" = Some (VStr u).
Proof.
  intros Hdata [Hteam Htim]%update_outcome_Ok.
  rewrite update_ss_team, update_ss_tim, Hteam. simpl.
  destruct Hdata as [(t & d & Ht)|(m & t & d & Hd)].
  - destruct (team_find_written u (teamData data) (ss_team (cl k)) t d)
      as (new & Hfind & Hsame); [done..|].
    exists new. split.
    + left. eapply (proj1 (find_elem_of (team_filter t u) _ new)).
      rewrite Hfind. apply list_elem_of_here.
    + rewrite Hsame by done. apply tag_team_lookup_user.
  - destruct (tim_find_written u (timData data) (ss_tim (cl k)) m t d)
      as (new & Hfind & Hsame); [done..|].
    exists new. split.
    + right. eapply (proj1 (find_elem_of (tim_filter m t u) _ new)).
      rewrite Hfind. apply list_elem_of_here.
    + rewrite Hsame by done. apply tag_tim_lookup_user.
Qed.

(** Records of another user stay. *)
Lemma update_keeps_record cl data u u' k :
  u ≠ u' →
  (∃ d, (d ∈ ss_team (cl k) ∨ d ∈ ss_tim (cl k)) ∧
        d !! "username" = Some (VStr u)) →
  ∃ d, (d ∈ ss_team (store (update cl data u' k) k) ∨
        d ∈ ss_tim (store (update cl data u' k) k)) ∧
       d !! "username" = Some (VStr u).
Proof.
  intros Hne (d & Hin & Hu). exists d. split; [|done].
  assert (matches (user_filter u) d = true) as Hm by by apply matches_user_filter.
  destruct Hin as [Hin|Hin]; [left|right].
  - apply (find_elem_of (user_filter u)).
    rewrite update_ss_team, bulk_write_find_other.
    + by apply find_elem_of.
    + apply batch_sound, team_ops_batch.
    + apply Forall_forall. intros op (t & d' & _ & ->)%team_ops_elem.
      by apply user_team_exclusive.
  - apply (find_elem_of (user_filter u)).
    rewrite update_ss_tim. destruct (is_ok _); [|by apply find_elem_of].
    rewrite bulk_write_find_other.
    + by apply find_elem_of.
    + apply batch_sound, tim_ops_batch.
    + apply Forall_forall.
      intros op (m & teams & t & d' & _ & _ & ->)%tim_ops_elem.
      by apply user_tim_exclusive.
Qed.

(** C6 (as amended).  What [users] returns lists, without repetition,
    exactly the values of the [username] field of the team records and the
    match-team records of the namespace.  In a store whose records have
    the shape [update] writes it does return, and after [update(V, u1)] and
    [update(W, u2)] that both return, for views [V] and [W] that each hold
    at least one data-point map, the list has [u1] and [u2]. *)
Theorem users_lists_usernames (cl : client) (event_key : string) :
  (∀ l, users cl event_key = Ok l →
     NoDup l ∧
     ∀ u, u ∈ l ↔ ∃ d, (d ∈ ss_team (cl event_key) ∨ d ∈ ss_tim (cl event_key)) ∧
                       d !! "username" = Some (VStr u)) ∧
  (well_formed (cl event_key) → ∃ l, users cl event_key = Ok l) ∧
  (∀ V W u1 u2,
     let cl1 := store (update cl V u1 event_key) in
     let cl2 := store (update cl1 W u2 event_key) in
     well_formed (cl event_key) → has_data V → has_data W →
     outcome (update cl V u1 event_key) = Ok () →
     outcome (update cl1 W u2 event_key) = Ok () →
     ∃ l, users cl2 event_key = Ok l ∧ u1 ∈ l ∧ u2 ∈ l).
Proof.
  split; [|split].
  - intros l Hl. split; [|intros u; by apply users_elem_of].
    apply users_Ok in Hl as (s1 & s2 & _ & _ & ->). apply NoDup_elements.
  - apply users_well_formed.
  - intros V W u1 u2 cl1 cl2 Hwf HV HW Hok1 Hok2.
    destruct (users_well_formed cl2 event_key) as [l Hl].
    { by do 2 apply update_well_formed. }
    exists l. split; [done|].
    pose proof (update_leaves_record cl1 W u2 event_key HW Hok2) as H2.
    rewrite !(users_elem_of _ _ _ _ Hl). split; [|done].
    destruct (decide (u1 = u2)) as [->|Hne]; [done|].
    apply update_keeps_record; [done|]. by apply update_leaves_record.
Qed.

End Properties.

(** ** The properties at sample data *)

Section Instances.
Import Mongo StandStrategist Samples.

Example spec_example :
  get store_alice "alice" event = Ok alice_view.
Proof. vm_compute. reflexivity. Qed.

Lemma update_isolated_witness :
  "bob" ≠ "alice" ∧
  get (store (update store_alice bob_view "alice" event)) "bob" event
    = get store_alice "bob" event.
Proof. split; [done|]. apply update_isolated. done. Defined.

(** The round trip loses a data point called [username] and a match without
    a team, is joined by what the store already held for the user, and
    reads the second of two records under one key. *)
Lemma update_then_get_counterexample :
  get (store (update empty_client view_named "alice" event)) "alice" event
    ≠ Ok view_named ∧
  get (store (update empty_client view_empty_match "alice" event)) "alice" event
    ≠ Ok view_empty_match ∧
  get (store (update store_alice view_a9 "alice" event)) "alice" event
    ≠ Ok view_a9 ∧
  get (store (update store_twice view_a9 "alice" event)) "alice" event
    ≠ Ok view_a9.
Proof. repeat split; vm_compute; discriminate. Qed.

Lemma empty_well_formed k : well_formed (empty_client k).
Proof. split; constructor. Qed.

Lemma empty_keyed k : keyed (empty_client k).
Proof. split; intros; simpl; lia. Qed.

Lemma empty_covered data u k : covered data u (empty_client k).
Proof. split; intros; done. Qed.

Lemma alice_view_plain : plain_view alice_view.
Proof.
  split; simpl.
  - intros t d [<- <-]%lookup_singleton_Some. by repeat split.
  - intros m teams t d [<- <-]%lookup_singleton_Some
      [<- <-]%lookup_singleton_Some. by repeat split.
  - intros m teams [<- <-]%lookup_singleton_Some Hempty.
    by apply (f_equal (.!! "100")) in Hempty.
Defined.

Lemma view_a9_plain : plain_view view_a9.
Proof.
  split; simpl.
  - intros t d [<- <-]%lookup_singleton_Some. by repeat split.
  - intros m teams t d Hm. by rewrite lookup_empty in Hm.
  - intros m teams Hm. by rewrite lookup_empty in Hm.
Defined.

Lemma store_ab_covered : covered view_a9 "alice" (store_ab event).
Proof.
  assert (ss_team (store_ab event)
          = [<["_id" := VOid 0]>
               (tag_team "100" "alice" {[ "a" := VNum 1; "b" := VNum 2 ]})])
    as Hteam.
  { vm_compute. reflexivity. }
  assert (ss_tim (store_ab event) = []) as Htim.
  { vm_compute. reflexivity. }
  split.
  - intros t Hfind. destruct (decide (t = "100")) as [->|Hne].
    { exists {[ "a" := VNum 9 ]}. reflexivity. }
    exfalso. apply Hfind. rewrite Hteam, find_cons.
    destruct (matches (team_filter t "alice") _) eqn:Hm; [|reflexivity].
    apply matches_team_filter in Hm as [Ht _].
    rewrite lookup_insert_ne in Ht by discriminate.
    rewrite tag_team_lookup_team in Ht. congruence.
  - intros m t Hfind. exfalso. apply Hfind. rewrite Htim. reflexivity.
Defined.

(** The example of the specification, and team 100 written over what an
    earlier call stored for it. *)
Lemma update_then_get_witness :
  (outcome (update empty_client alice_view "alice" event) = Ok () ∧
   get (store (update empty_client alice_view "alice" event)) "alice" event
     = Ok alice_view) ∧
  (outcome (update store_ab view_a9 "alice" event) = Ok () ∧
   get (store (update store_ab view_a9 "alice" event)) "alice" event
     = Ok view_a9).
Proof.
  assert (outcome (update empty_client alice_view "alice" event) = Ok ())
    as Hok1 by (vm_compute; reflexivity).
  assert (outcome (update store_ab view_a9 "alice" event) = Ok ())
    as Hok2 by (vm_compute; reflexivity).
  split; (split; [assumption|]).
  - apply update_then_get.
    + apply empty_well_formed.
    + apply empty_keyed.
    + apply empty_covered.
    + apply alice_view_plain.
    + exact Hok1.
  - apply update_then_get.
    + apply update_well_formed, empty_well_formed.
    + apply update_keyed, empty_keyed.
    + apply store_ab_covered.
    + apply view_a9_plain.
    + exact Hok2.
Defined.

(** Team 100 holds [{a: 1, b: 2}]; [update] supplies [{a: 9}]; [get] then
    returns [{a: 9}], without [b]. *)
Lemma update_replaces_data_points_witness :
  ∃ view,
    get (store (update store_ab view_a9 "alice" event)) "alice" event = Ok view ∧
    teamData view !! "100"
      = Some (delete "username" (delete "team_number"
                (delete "_id" {[ "a" := VNum 9 ]}))) ∧
    (({[ "a" := VNum 9 ]} : doc) !! "_id" = None →
     ({[ "a" := VNum 9 ]} : doc) !! "team_number" = None →
     ({[ "a" := VNum 9 ]} : doc) !! "username" = None →
     teamData view !! "100" = Some {[ "a" := VNum 9 ]}).
Proof.
  apply (update_replaces_data_points store_ab view_a9 "alice" event "100").
  - apply update_well_formed, empty_well_formed.
  - vm_compute. lia.
  - reflexivity.
  - vm_compute. reflexivity.
Defined.

(** A supplied map with a data point called [username] is not what the
    record holds afterwards. *)
Lemma update_replaces_data_points_counterexample :
  teamData view_named !! "100"
    = Some {[ "a" := VNum 9; "username" := VStr "mallory" ]} ∧
  outcome (update store_ab view_named "alice" event) = Ok () ∧
  ∃ view,
    get (store (update store_ab view_named "alice" event)) "alice" event
      = Ok view ∧
    teamData view !! "100" = Some {[ "a" := VNum 9 ]} ∧
    teamData view !! "100" ≠ teamData view_named !! "100".
Proof.
  split; [reflexivity|]. split; [vm_compute; reflexivity|].
  eexists. split; [vm_compute; reflexivity|].
  split; [vm_compute; reflexivity|]. vm_compute. discriminate.
Qed.

Lemma update_tags_body_witness :
  let data' := body (update empty_client alice_view "alice" event) in
  (∀ t d, teamData alice_view !! t = Some d →
     ∃ d', teamData data' !! t = Some d' ∧
           d' !! "team_number" = Some (VStr t) ∧
           d' !! "username" = Some (VStr "alice") ∧
           ∀ key, key ≠ "team_number" → key ≠ "username" →
                  d' !! key = d !! key) ∧
  (∀ m t d, lookup2 (timData alice_view) m t = Some d →
     ∃ d', lookup2 (timData data') m t = Some d' ∧
           d' !! "match_number" = Some (VStr m) ∧
           d' !! "team_number" = Some (VStr t) ∧
           d' !! "username" = Some (VStr "alice") ∧
           ∀ key, key ≠ "match_number" → key ≠ "team_number" →
                  key ≠ "username" → d' !! key = d !! key) ∧
  ((∃ t d, teamData alice_view !! t = Some d ∧
           d !! "username" ≠ Some (VStr "alice")) → data' ≠ alice_view).
Proof.
  apply (update_tags_body empty_client alice_view "alice" event).
  vm_compute. reflexivity.
Defined.

Lemma update_identifying_fields_witness :
  ∃ record,
    head (find [("team_number", VStr "100"); ("username", VStr "alice")]
               (ss_team (store (update store_ab view_named "alice" event) event)))
      = Some record ∧
    record !! "team_number" = Some (VStr "100") ∧
    record !! "username" = Some (VStr "alice") ∧
    ∀ key, key ≠ "_id" → key ≠ "team_number" → key ≠ "username" →
           record !! key
             = ({[ "a" := VNum 9; "username" := VStr "mallory" ]} : doc) !! key.
Proof.
  refine (proj1 (proj2 (update_identifying_fields store_ab view_named
                          "alice" event) _) "100" _ _).
  - vm_compute. reflexivity.
  - reflexivity.
Defined.

Lemma get_strips_identifying_names_witness :
  ((∀ t d, teamData alice_view !! t = Some d →
      d !! "_id" = None ∧ d !! "team_number" = None ∧
      d !! "username" = None) ∧
   (∀ m t d, lookup2 (timData alice_view) m t = Some d →
      d !! "_id" = None ∧ d !! "match_number" = None ∧
      d !! "team_number" = None ∧ d !! "username" = None)) ∧
  get (store (update store_ab view_named "alice" event)) "alice" event
    ≠ Ok view_named.
Proof.
  split.
  - apply (proj1 (get_strips_identifying_names store_alice "alice" event)).
    vm_compute. reflexivity.
  - apply (proj2 (get_strips_identifying_names store_ab "alice" event)).
    left. exists "100", {[ "a" := VNum 9; "username" := VStr "mallory" ]}, "username".
    split; [reflexivity|]. split; [|by eexists].
    do 2 apply list_elem_of_further. apply list_elem_of_here.
Defined.

Lemma get_unguarded_pop_witness :
  (∃ e, get store_broken "alice" event = Err e) ∧
  (∃ view, get store_alice "alice" event = Ok view).
Proof.
  split.
  - apply (proj1 (get_unguarded_pop store_broken "alice" event)).
    exists broken_record. split; [apply list_elem_of_here|].
    split; [reflexivity|]. left. reflexivity.
  - apply (proj2 (proj2 (get_unguarded_pop store_alice "alice" event))).
    apply created_update, created_empty.
Defined.

Lemma alice_view_has_data : has_data alice_view.
Proof. left. exists "100". by eexists. Defined.

Lemma bob_view_has_data : has_data bob_view.
Proof. left. exists "254". by eexists. Defined.

Lemma users_lists_usernames_witness :
  (users store_alice event = Ok ["alice"] →
     NoDup ["alice"] ∧
     ∀ u, u ∈ ["alice"] ↔
          ∃ d, (d ∈ ss_team (store_alice event) ∨ d ∈ ss_tim (store_alice event)) ∧
               d !! "username" = Some (VStr u)) ∧
  ∃ l, users (store (update (store (update empty_client alice_view "alice" event))
                       bob_view "bob" event)) event = Ok l ∧
       "alice" ∈ l ∧ "bob" ∈ l.
Proof.
  split.
  - apply (proj1 (users_lists_usernames store_alice event)).
  - apply (proj2 (proj2 (users_lists_usernames empty_client event))
             alice_view bob_view "alice" "bob").
    + apply empty_well_formed.
    + apply alice_view_has_data.
    + apply bob_view_has_data.
    + vm_compute. reflexivity.
    + vm_compute. reflexivity.
Defined.

(** A view with a match but no team is not empty, and leaves no record. *)
Lemma users_lists_usernames_counterexample :
  timData view_empty_match ≠ ∅ ∧ teamData bob_view ≠ ∅ ∧
  outcome (update empty_client view_empty_match "alice" event) = Ok () ∧
  outcome (update (store (update empty_client view_empty_match "alice" event))
             bob_view "bob" event) = Ok () ∧
  users (store (update (store (update empty_client view_empty_match "alice" event))
                  bob_view "bob" event)) event = Ok ["bob"] ∧
  "alice" ∉ ["bob"].
Proof.
  repeat split; try (vm_compute; reflexivity); try (vm_compute; discriminate).
  intros [[=]|[]%elem_of_nil]%elem_of_cons.
Qed.

End Instances.


(** ** Further properties of the handlers *)

Section Further.
Import Mongo StandStrategist.

(** *** What writing keeps *)

Lemma written_length op c c' : written op c c' → (length c ≤ length c')%nat.
Proof.
  intros [l1 old new l2 -> -> _ _ _|new _ -> _];
    rewrite !length_app; simpl; lia.
Qed.

Lemma bulk_write_length ops c :
  Forall sound ops → (length c ≤ length (bulk_write ops c).1)%nat.
Proof.
  intros Hs. revert c. induction Hs as [|op ops Hop _ IH]; intros c; [done|].
  rewrite bulk_write_cons.
  destruct (replace_one op c) as [c'|e] eqn:Hc; [|done].
  apply replace_one_written in Hc; [|apply Hop].
  apply written_length in Hc. specialize (IH c'). lia.
Qed.

(** A property of a record that replacing it maintains is still had by some
    record afterwards. *)
Lemma written_keeps (P : doc → Prop) op c c' :
  (∀ old new, P old → matches (filter op) old = true →
     replace_doc old (replacement op) = Ok new → P new) →
  written op c c' →
  (∃ d, d ∈ c ∧ P d) → ∃ d, d ∈ c' ∧ P d.
Proof.
  intros Hrep [l1 old new l2 -> -> _ Hold Hnew|new _ -> _] (d & Hd & HP).
  - rewrite elem_of_app, elem_of_cons in Hd.
    destruct Hd as [Hd|[->|Hd]].
    + exists d. rewrite elem_of_app. eauto.
    + exists new. rewrite elem_of_app, elem_of_cons. eauto.
    + exists d. rewrite elem_of_app, elem_of_cons. eauto.
  - exists d. rewrite elem_of_app. eauto.
Qed.

Lemma bulk_write_keeps (P : doc → Prop) ops c :
  Forall sound ops →
  (∀ op old new, op ∈ ops → P old → matches (filter op) old = true →
     replace_doc old (replacement op) = Ok new → P new) →
  (∃ d, d ∈ c ∧ P d) → ∃ d, d ∈ (bulk_write ops c).1 ∧ P d.
Proof.
  intros Hs. revert c. induction Hs as [|op ops Hop _ IH]; intros c Hrep Hc; [done|].
  rewrite bulk_write_cons.
  destruct (replace_one op c) as [c'|e] eqn:Hc'; [|done].
  apply replace_one_written in Hc'; [|apply Hop]. apply IH.
  - intros. eapply Hrep; [by apply list_elem_of_further|done..].
  - eapply (written_keeps P); [|done..].
    intros. eapply Hrep; [apply list_elem_of_here|done..].
Qed.

(** *** [get] *)

(** X1. For a user without a record in the namespace, [get] returns the
    view with both maps empty, whatever the records of the other users look
    like. *)
Theorem get_no_records (cl : client) (username event_key : string) :
  (∀ d, d ∈ ss_team (cl event_key) ∨ d ∈ ss_tim (cl event_key) →
        d !! "username" ≠ Some (VStr username)) →
  get cl username event_key = Ok {| teamData := ∅; timData := ∅ |}.
Proof.
  intros Hnone. apply get_Ok. simpl.
  assert (∀ c, (∀ d, d ∈ c → d !! "username" ≠ Some (VStr username)) →
               find (user_filter username) c = []) as Hfind.
  { intros c Hc. apply find_nil_Forall, Forall_forall. intros d Hd.
    destruct (matches _ d) eqn:Hm; [|done].
    apply matches_user_filter in Hm. by destruct (Hc d Hd). }
  rewrite !Hfind; [done|intros; apply Hnone; by right|intros; apply Hnone; by left].
Qed.

(** X2. In the view [get] returns, a team is present exactly when the user
    has a record for it, and holds the data points of the last such record
    in the order of the collection; likewise for a match and team. *)
Theorem get_last_record (cl : client) (username event_key : string)
    (view : StandStrategistData) :
  get cl username event_key = Ok view →
  (∀ t, teamData view !! t =
        strip_team <$>
          last (find [("team_number", VStr t); ("username", VStr username)]
                     (ss_team (cl event_key)))) ∧
  (∀ m t, lookup2 (timData view) m t =
          strip_tim <$>
            last (find [("match_number", VStr m); ("team_number", VStr t);
                        ("username", VStr username)]
                       (ss_tim (cl event_key)))).
Proof.
  intros Hview. split.
  - intros t. by apply get_team_lookup.
  - intros m t. by apply get_tim_lookup2.
Qed.

(** X3. No match of a view [get] returns is without a team: the inner dict
    of a match is only created for a record, which then goes into it. *)
Theorem get_matches_not_empty (cl : client) (username event_key : string)
    (view : StandStrategistData) :
  get cl username event_key = Ok view →
  ∀ m teams, timData view !! m = Some teams → teams ≠ ∅.
Proof.
  intros Hview m teams Hm ->.
  destruct (get_no_empty_match _ _ _ _ m Hview) as (t & d & Hd); [by eexists|].
  unfold lookup2 in Hd. rewrite Hm in Hd. simpl in Hd.
  by rewrite lookup_empty in Hd.
Qed.

Lemma users_ext cl cl' k k' :
  cl k = cl' k' → users cl k = users cl' k'.
Proof. intros Heq. unfold users, client_find. by rewrite Heq. Qed.

(** X4. [update] touches the namespace it is given and no other: every
    other database is as it was, and so is what [get] and [users] return
    there. *)
Theorem update_other_namespaces (cl : client) (data : StandStrategistData)
    (username event_key ns u : string) :
  ns ≠ event_key →
  let r := update cl data username event_key in
  store r ns = cl ns ∧ get (store r) u ns = get cl u ns ∧
  users (store r) ns = users cl ns.
Proof.
  intros Hns. simpl.
  pose proof (update_other_db cl data username event_key ns Hns) as Hdb.
  split; [done|]. split.
  - apply get_ext; by rewrite Hdb.
  - by apply users_ext.
Qed.

(** *** [update] *)

(** X5. [update] never deletes: no collection of the namespace gets shorter,
    and every [_id] a record carried before is carried by a record
    afterwards, whether the call returns or raises. *)
Theorem update_never_deletes (cl : client) (data : StandStrategistData)
    (username event_key : string) :
  let r := update cl data username event_key in
  (length (ss_team (cl event_key)) ≤ length (ss_team (store r event_key)))%nat ∧
  (length (ss_tim (cl event_key)) ≤ length (ss_tim (store r event_key)))%nat ∧
  (∀ d v, d ∈ ss_team (cl event_key) → d !! "_id" = Some v →
          ∃ d', d' ∈ ss_team (store r event_key) ∧ d' !! "_id" = Some v) ∧
  (∀ d v, d ∈ ss_tim (cl event_key) → d !! "_id" = Some v →
          ∃ d', d' ∈ ss_tim (store r event_key) ∧ d' !! "_id" = Some v).
Proof.
  simpl. rewrite update_ss_team, update_ss_tim.
  pose proof (batch_sound _ (team_ops_batch username (teamData data))) as Hteam.
  pose proof (batch_sound _ (tim_ops_batch username (timData data))) as Htim.
  split; [by apply bulk_write_length|].
  split; [destruct (is_ok _); [by apply bulk_write_length|done]|].
  split.
  - intros d v Hd Hv.
    apply (bulk_write_keeps (λ d, d !! "_id" = Some v)); [done| |by exists d].
    intros op old new _ Hold _ Hnew.
    by rewrite (replace_doc_lookup_id _ _ _ Hnew).
  - intros d v Hd Hv. destruct (is_ok _); [|by exists d].
    apply (bulk_write_keeps (λ d, d !! "_id" = Some v)); [done| |by exists d].
    intros op old new _ Hold _ Hnew.
    by rewrite (replace_doc_lookup_id _ _ _ Hnew).
Qed.

(** X6. The stores that calls of [update] build from the empty one keep the
    invariants of the data model in every namespace: every record carries
    [_id] and its identifying fields as strings, and there is at most one
    team record per (team, username) and one match-team record per (match,
    team, username). *)
Theorem created_invariants (cl : client) (ns : string) :
  created_by_update cl →
  Forall team_record (ss_team (cl ns)) ∧
  Forall tim_record (ss_tim (cl ns)) ∧
  (∀ t u, (length (find [("team_number", VStr t); ("username", VStr u)]
                        (ss_team (cl ns))) ≤ 1)%nat) ∧
  (∀ m t u, (length (find [("match_number", VStr m); ("team_number", VStr t);
                           ("username", VStr u)]
                          (ss_tim (cl ns))) ≤ 1)%nat).
Proof.
  intros Hcl. destruct (created_well_formed cl ns Hcl) as [Hteam Htim].
  destruct (created_keyed cl ns Hcl) as [Hkteam Hktim]. done.
Qed.


(** X9. When [update] raises without having issued a [bulk_write] on the
    match-team collection, it is the team batch that failed: the second loop
    has not run, so the match-team collection and the [timData] of the
    request body are as they were, while the inner maps of [teamData] are
    already tagged. *)
Theorem update_raises_early (cl : client) (data : StandStrategistData)
    (username event_key : string) (e : error) :
  let r := update cl data username event_key in
  outcome r = Err e →
  (∀ ops, (SS_TIM, ops) ∉ calls r) →
  ss_tim (store r event_key) = ss_tim (cl event_key) ∧
  timData (body r) = timData data ∧
  (∀ t, teamData (body r) !! t = tag_team t username <$> teamData data !! t).
Proof.
  simpl. intros Hout Hcalls.
  rewrite update_ss_tim, update_body. simpl.
  rewrite update_outcome in Hout. rewrite update_calls in Hcalls.
  destruct (bulk_write (team_ops _ _) _).2 as [[]|e'] eqn:Hteam; simpl in *.
  - destruct (tim_ops username (timData data)) as [|op ops] eqn:Hops.
    + done.
    + destruct (Hcalls (op :: ops)). apply elem_of_app. right.
      apply list_elem_of_here.
  - split; [done|]. split; [done|]. intros t. apply tagged_teamData_lookup.
Qed.

(** *** How the handlers compose *)

Lemma update_keeps_username cl data u k u0 :
  (∃ d, (d ∈ ss_team (cl k) ∨ d ∈ ss_tim (cl k)) ∧
        d !! "username" = Some (VStr u0)) →
  ∃ d, (d ∈ ss_team (store (update cl data u k) k) ∨
        d ∈ ss_tim (store (update cl data u k) k)) ∧
       d !! "username" = Some (VStr u0).
Proof.
  intros (d & [Hd|Hd] & Hu0); rewrite update_ss_team, update_ss_tim.
  - destruct (bulk_write_keeps (λ d, d !! "username" = Some (VStr u0))
                (team_ops u (teamData data)) (ss_team (cl k)))
      as (d' & Hd' & Hu'); [apply batch_sound, team_ops_batch| |by exists d|by eauto].
    intros op old new (t & d0 & _ & ->)%team_ops_elem Hold Hm Hnew. simpl in *.
    apply matches_team_filter in Hm as [_ Hm].
    rewrite (replace_doc_same_fields _ _ _ Hnew) by done.
    rewrite tag_team_lookup_user. congruence.
  - destruct (is_ok _); [|by eauto].
    destruct (bulk_write_keeps (λ d, d !! "username" = Some (VStr u0))
                (tim_ops u (timData data)) (ss_tim (cl k)))
      as (d' & Hd' & Hu'); [apply batch_sound, tim_ops_batch| |by exists d|by eauto].
    intros op old new (m & teams & t & d0 & _ & _ & ->)%tim_ops_elem Hold Hm Hnew.
    simpl in *. apply matches_tim_filter in Hm as (_ & _ & Hm).
    rewrite (replace_doc_same_fields _ _ _ Hnew) by done.
    rewrite tag_tim_lookup_user. congruence.
Qed.

(** X10. No call of [update] makes a username disappear: in a store whose
    records have the shape [update] writes, [users] returns before and after
    the call, and every username listed before is listed after. *)
Theorem users_only_grow (cl : client) (data : StandStrategistData)
    (username event_key : string) :
  well_formed (cl event_key) →
  ∃ l l', users cl event_key = Ok l ∧
          users (store (update cl data username event_key)) event_key = Ok l' ∧
          ∀ u, u ∈ l → u ∈ l'.
Proof.
  intros Hwf. destruct (users_well_formed cl event_key Hwf) as [l Hl].
  destruct (users_well_formed (store (update cl data username event_key))
              event_key) as [l' Hl']; [by apply update_well_formed|].
  exists l, l'. split; [done|]. split; [done|]. intros u.
  rewrite (users_elem_of _ _ _ _ Hl), (users_elem_of _ _ _ _ Hl').
  apply update_keeps_username.
Qed.

(** X11. What is read back is the view written, less the identifying names:
    in a store whose records have the shape [update] writes, with at most
    one record per key and no record of the user outside the keys of the
    view, after an [update] that returns, [get] returns under each team, and
    each match and team, of the view the data-point map supplied without
    [_id], [team_number], [username] (and [match_number]), and nothing
    under any other key. *)
Theorem update_then_get_stripped (cl : client) (data : StandStrategistData)
    (username event_key : string) :
  well_formed (cl event_key) →
  keyed (cl event_key) →
  covered data username (cl event_key) →
  outcome (update cl data username event_key) = Ok () →
  ∃ view,
    get (store (update cl data username event_key)) username event_key = Ok view ∧
    (∀ t, teamData view !! t = strip_team <$> teamData data !! t) ∧
    (∀ m t, lookup2 (timData view) m t
              = strip_tim <$> lookup2 (timData data) m t).
Proof.
  intros Hwf [Hkteam Hktim] [Hcteam Hctim] [Hokteam Hoktim]%update_outcome_Ok.
  pose proof (update_well_formed cl data username event_key event_key Hwf)
    as Hwf'.
  destruct (get_well_formed _ username event_key Hwf') as [view Hview].
  exists view. split; [done|]. split.
  - intros t. rewrite (get_team_lookup _ _ _ _ t Hview), update_ss_team.
    destruct (teamData data !! t) as [d|] eqn:Hd.
    + destruct (team_find_written username (teamData data)
                  (ss_team (cl event_key)) t d) as (new & -> & Hsame);
        [done..|].
      rewrite tail_short by done. simpl.
      by rewrite (strip_team_same_fields _ _ Hsame), strip_tag_team.
    + rewrite team_find_untouched by done.
      destruct (find (team_filter t username) (ss_team (cl event_key)))
        as [|x l] eqn:Hfind; [done|].
      destruct (Hcteam t) as [d' Hd']; [by rewrite Hfind|congruence].
  - intros m t. rewrite (get_tim_lookup2 _ _ _ _ m t Hview).
    rewrite update_ss_tim, Hokteam. simpl.
    destruct (lookup2 (timData data) m t) as [d|] eqn:Hd.
    + destruct (tim_find_written username (timData data)
                  (ss_tim (cl event_key)) m t d) as (new & -> & Hsame);
        [done..|].
      rewrite tail_short by done. simpl.
      by rewrite (strip_tim_same_fields _ _ Hsame), strip_tag_tim.
    + rewrite tim_find_untouched by done.
      destruct (find (tim_filter m t username) (ss_tim (cl event_key)))
        as [|x l] eqn:Hfind; [done|].
      destruct (Hctim m t) as [d' Hd']; [by rewrite Hfind|congruence].
Qed.

(** X12. What [get] returns under a team, or a match and team, that the
    view of an [update] does not have is the same after the call as before
    it, also for the user the call writes for and also when the call
    raises: writes accumulate key by key. *)
Theorem update_keeps_other_keys (cl : client) (data : StandStrategistData)
    (username event_key : string) (view view' : StandStrategistData) :
  get cl username event_key = Ok view →
  get (store (update cl data username event_key)) username event_key = Ok view' →
  (∀ t, teamData data !! t = None → teamData view' !! t = teamData view !! t) ∧
  (∀ m t, lookup2 (timData data) m t = None →
          lookup2 (timData view') m t = lookup2 (timData view) m t).
Proof.
  intros Hview Hview'. split.
  - intros t Ht.
    rewrite (get_team_lookup _ _ _ _ t Hview), (get_team_lookup _ _ _ _ t Hview').
    by rewrite update_ss_team, team_find_untouched.
  - intros m t Hmt.
    rewrite (get_tim_lookup2 _ _ _ _ m t Hview),
      (get_tim_lookup2 _ _ _ _ m t Hview').
    rewrite update_ss_tim. destruct (is_ok _); [|done].
    by rewrite tim_find_untouched.
Qed.

(** *** [users] *)

Lemma users_loop_fields docs acc res d :
  users_loop docs acc = Ok res → d ∈ docs →
  ∃ u, d !! "username" = Some (VStr u).
Proof.
  intros Hloop Hin. revert acc Hloop.
  induction Hin as [d docs|d d' docs _ IH]; intros acc;
    rewrite users_loop_cons, bind_Ok; intros (v & Hv%getitem_Ok & Hrest);
    apply bind_Ok in Hrest as (u & ->%as_str_Ok & Hrest); eauto.
Qed.

(** X13. [users] reads [doc["username"]] without a guard: it raises, rather
    than return a list, as soon as a record of either collection of the
    namespace has no [username] field. *)
Theorem users_unguarded (cl : client) (event_key : string) :
  (∃ d, (d ∈ ss_team (cl event_key) ∨ d ∈ ss_tim (cl event_key)) ∧
        d !! "username" = None) →
  ∃ e, users cl event_key = Err e.
Proof.
  intros (d & Hd & Hnone).
  destruct (users cl event_key) as [l|e] eqn:Husers; [|by exists e].
  apply users_Ok in Husers as (s1 & s2 & Hs1 & Hs2 & _).
  destruct Hd as [Hd|Hd].
  - destruct (users_loop_fields _ _ _ d Hs1 Hd) as [u Hu]. congruence.
  - destruct (users_loop_fields _ _ _ d Hs2 Hd) as [u Hu]. congruence.
Qed.

End Further.

(** ** The further properties at sample data *)

Section FurtherInstances.
Import Mongo StandStrategist Samples.

Lemma get_no_records_witness :
  get store_broken "bob" event = Ok {| teamData := ∅; timData := ∅ |}.
Proof.
  apply get_no_records. intros d [Hd|Hd].
  - apply list_elem_of_singleton in Hd as ->. discriminate.
  - by apply elem_of_nil in Hd.
Defined.

Lemma get_last_record_witness :
  (∀ t, teamData view_second !! t =
        strip_team <$>
          last (find [("team_number", VStr t); ("username", VStr "alice")]
                     (ss_team (store_twice event)))) ∧
  (∀ m t, lookup2 (timData view_second) m t =
          strip_tim <$>
            last (find [("match_number", VStr m); ("team_number", VStr t);
                        ("username", VStr "alice")]
                       (ss_tim (store_twice event)))).
Proof. apply get_last_record. vm_compute. reflexivity. Defined.

Lemma get_matches_not_empty_witness :
  get store_alice "alice" event = Ok alice_view ∧
  ∀ m teams, timData alice_view !! m = Some teams → teams ≠ ∅.
Proof.
  assert (get store_alice "alice" event = Ok alice_view) as Hget
    by (vm_compute; reflexivity).
  split; [exact Hget|].
  exact (get_matches_not_empty store_alice "alice" event alice_view Hget).
Defined.

Lemma update_other_namespaces_witness :
  let r := update store_alice bob_view "bob" event in
  store r "2023cc" = store_alice "2023cc" ∧
  get (store r) "alice" "2023cc" = get store_alice "alice" "2023cc" ∧
  users (store r) "2023cc" = users store_alice "2023cc".
Proof. apply update_other_namespaces. discriminate. Defined.

Lemma created_invariants_witness :
  Forall team_record (ss_team (store_alice event)) ∧
  Forall tim_record (ss_tim (store_alice event)) ∧
  (∀ t u, (length (find [("team_number", VStr t); ("username", VStr u)]
                        (ss_team (store_alice event))) ≤ 1)%nat) ∧
  (∀ m t u, (length (find [("match_number", VStr m); ("team_number", VStr t);
                           ("username", VStr u)]
                          (ss_tim (store_alice event))) ≤ 1)%nat).
Proof. apply created_invariants. apply created_update, created_empty. Defined.

Lemma update_raises_early_witness :
  let r := update store_ab view_with_id "alice" event in
  ss_tim (store r event) = ss_tim (store_ab event) ∧
  timData (body r) = timData view_with_id ∧
  (∀ t, teamData (body r) !! t
          = tag_team t "alice" <$> teamData view_with_id !! t).
Proof.
  apply (update_raises_early store_ab view_with_id "alice" event BulkWriteError).
  - vm_compute. reflexivity.
  - intros ops Hin.
    apply (list_elem_of_fmap_2 fst) in Hin.
    assert ((calls (update store_ab view_with_id "alice" event)).*1 = [SS_TEAM])
      as Hcalls by (vm_compute; reflexivity).
    rewrite Hcalls in Hin. clear Hcalls.
    apply list_elem_of_singleton in Hin. discriminate Hin.
Defined.

Lemma users_only_grow_witness :
  ∃ l l', users store_alice event = Ok l ∧
          users (store (update store_alice bob_view "bob" event)) event = Ok l' ∧
          ∀ u, u ∈ l → u ∈ l'.
Proof.
  apply users_only_grow. apply update_well_formed. split; constructor.
Defined.

Lemma store_ab_covered_named : covered view_named "alice" (store_ab event).
Proof.
  assert (ss_team (store_ab event)
          = [<["_id" := VOid 0]>
               (tag_team "100" "alice" {[ "a" := VNum 1; "b" := VNum 2 ]})])
    as Hteam.
  { vm_compute. reflexivity. }
  assert (ss_tim (store_ab event) = []) as Htim.
  { vm_compute. reflexivity. }
  split.
  - intros t Hfind. destruct (decide (t = "100")) as [->|Hne].
    { exists {[ "a" := VNum 9; "username" := VStr "mallory" ]}. reflexivity. }
    exfalso. apply Hfind. rewrite Hteam, find_cons.
    destruct (matches (team_filter t "alice") _) eqn:Hm; [|reflexivity].
    apply matches_team_filter in Hm as [Ht _].
    rewrite lookup_insert_ne in Ht by discriminate.
    rewrite tag_team_lookup_team in Ht. congruence.
  - intros m t Hfind. exfalso. apply Hfind. rewrite Htim. reflexivity.
Defined.

(** A data point called [username] comes back removed. *)
Lemma update_then_get_stripped_witness :
  ∃ view,
    get (store (update store_ab view_named "alice" event)) "alice" event
      = Ok view ∧
    (∀ t, teamData view !! t = strip_team <$> teamData view_named !! t) ∧
    (∀ m t, lookup2 (timData view) m t
              = strip_tim <$> lookup2 (timData view_named) m t).
Proof.
  apply update_then_get_stripped.
  - apply update_well_formed. split; constructor.
  - apply update_keyed. split; intros; simpl; lia.
  - apply store_ab_covered_named.
  - vm_compute. reflexivity.
Defined.

Lemma update_keeps_other_keys_witness :
  (∀ t, teamData bob_view !! t = None →
        teamData view_both !! t = teamData alice_view !! t) ∧
  (∀ m t, lookup2 (timData bob_view) m t = None →
          lookup2 (timData view_both) m t = lookup2 (timData alice_view) m t).
Proof.
  apply (update_keeps_other_keys store_alice bob_view "alice" event).
  - vm_compute. reflexivity.
  - vm_compute. reflexivity.
Defined.

Lemma users_unguarded_witness : ∃ e, users store_nameless event = Err e.
Proof.
  apply users_unguarded.
  exists {[ "_id" := VOid 0; "match_number" := VStr "12";
            "team_number" := VStr "100" ]}.
  split; [right; apply list_elem_of_here|reflexivity].
Defined.

End FurtherInstances.
